(** * IPython.core.completer: a shallow embedding and its properties

  The development follows [IPython/core/completer.py].  Python values the
  module only hands around (objects of the user namespace) are an abstract
  type; the interpreter and operating-system services it calls ([eval],
  [dir2], [inspect], [glob], [os.path], [shlex], readline) are fields of a
  record of oracles, so every theorem holds for all of their behaviours and
  every example fixes them explicitly. *)

From Stdlib Require Import String Ascii List Bool ZArith Lia Arith.
From Stdlib Require Import Sorting.Sorted Sorting.Permutation.
From Stdlib Require Import Structures.OrdersEx Classes.RelationClasses.
Import ListNotations.
Local Open Scope string_scope.
Local Open Scope list_scope.

(** ** Python strings (Python 2 [str]: byte strings) *)

Module PyStr.

Definition chars (s : string) : list ascii := list_ascii_of_string s.
Definition str (l : list ascii) : string := string_of_list_ascii l.

(** [s.startswith(p)] *)
Definition startswith (s p : string) : bool := String.prefix p s.

(** the characters [str.strip()] and [str.split(None)] treat as blank,
    which are also those the regular-expression class [\s] accepts *)
Definition is_space (c : ascii) : bool :=
  match c with
  | " "%char | "009"%char | "010"%char | "011"%char | "012"%char | "013"%char => true
  | _ => false
  end.

(** the regular-expression class [\w] (no LOCALE, no UNICODE flag) *)
Definition is_word (c : ascii) : bool :=
  let n := nat_of_ascii c in
  (((48 <=? n) && (n <=? 57)) || ((65 <=? n) && (n <=? 90))
   || ((97 <=? n) && (n <=? 122)) || (n =? 95))%nat.

(** a letter or a digit of ASCII *)
Definition is_alnum (c : ascii) : bool :=
  let n := nat_of_ascii c in
  (((48 <=? n) && (n <=? 57)) || ((65 <=? n) && (n <=? 90))
   || ((97 <=? n) && (n <=? 122)))%nat.

Definition mem (c : ascii) (set : string) : bool :=
  existsb (Ascii.eqb c) (chars set).

(** [c in s] for a one-character string [c] *)
Definition contains (s : string) (c : ascii) : bool := mem c s.

(** [s.count(c)] for a one-character string [c] *)
Definition count (s : string) (c : ascii) : nat :=
  List.length (filter (Ascii.eqb c) (chars s)).

Fixpoint dropwhile (p : ascii -> bool) (l : list ascii) : list ascii :=
  match l with
  | [] => []
  | c :: r => if p c then dropwhile p r else l
  end.

Fixpoint takewhile (p : ascii -> bool) (l : list ascii) : list ascii :=
  match l with
  | [] => []
  | c :: r => if p c then c :: takewhile p r else []
  end.

(** [s.lstrip(set)]: drop every leading character that occurs in [set] *)
Definition lstrip_chars (s set : string) : string :=
  str (dropwhile (fun c => mem c set) (chars s)).

(** [s.lstrip()] *)
Definition lstrip (s : string) : string := str (dropwhile is_space (chars s)).

(** [not s.strip()]: the string is empty or holds blanks only *)
Definition is_blank (s : string) : bool := forallb is_space (chars s).

(** [s.split(None, 1)[0]], defined when [s] is not blank *)
Definition first_word (s : string) : option string :=
  match dropwhile is_space (chars s) with
  | [] => None
  | l => Some (str (takewhile (fun c => negb (is_space c)) l))
  end.

Definition lower_char (c : ascii) : ascii :=
  let n := nat_of_ascii c in
  if ((65 <=? n) && (n <=? 90))%nat then ascii_of_nat (n + 32) else c.

(** [s.lower()] in the C locale *)
Definition lower (s : string) : string := str (map lower_char (chars s)).

(** [s.replace(c, '')] for a one-character string [c] *)
Definition remove_char (s : string) (c : ascii) : string :=
  str (filter (fun d => negb (Ascii.eqb c d)) (chars s)).

(** [s.replace(a, b)] for one-character strings [a] and [b] *)
Definition replace_char (s : string) (a b : ascii) : string :=
  str (map (fun d => if Ascii.eqb a d then b else d) (chars s)).

(** the last piece of a split on the characters [sep] accepts:
    [s.split(c)[-1]] and [re.split(s)[-1]] for a character class *)
Fixpoint last_piece (sep : ascii -> bool) (l acc : list ascii) : list ascii :=
  match l with
  | [] => acc
  | c :: r => if sep c then last_piece sep r [] else last_piece sep r (acc ++ [c])
  end.

Definition split_last (sep : ascii -> bool) (s : string) : string :=
  str (last_piece sep (chars s) []).

(** [s[:n]] with Python's reading of a negative bound *)
Definition slice_to (s : string) (n : Z) : string :=
  let len := Z.of_nat (String.length s) in
  if (0 <=? n)%Z then String.substring 0 (Z.to_nat n) s
  else String.substring 0 (Z.to_nat (len + n)) s.

(** [s[n:]] for [n >= 0] *)
Definition slice_from (s : string) (n : nat) : string :=
  String.substring n (String.length s - n) s.

(** [l[i]] with Python's reading of a negative index; [None] stands for
    [IndexError] *)
Definition getitem {A} (l : list A) (i : Z) : option A :=
  let len := Z.of_nat (List.length l) in
  if (0 <=? i)%Z then nth_error l (Z.to_nat i)
  else if (0 <=? len + i)%Z then nth_error l (Z.to_nat (len + i))
  else None.

(** [l[-d:]] for [d > 0] *)
Definition lastn {A} (d : nat) (l : list A) : list A :=
  skipn (List.length l - d) l.

(** [l] without its prefix [p], when it begins with [p] *)
Fixpoint strip_prefix (p l : list ascii) : option (list ascii) :=
  match p, l with
  | [], _ => Some l
  | _ :: _, [] => None
  | a :: p', b :: l' => if Ascii.eqb a b then strip_prefix p' l' else None
  end.

(** what follows the first occurrence of [p] in [l], if there is one *)
Fixpoint after_first (p l : list ascii) : option (list ascii) :=
  match strip_prefix p l with
  | Some r => Some r
  | None => match l with
            | [] => None
            | _ :: l' => after_first p l'
            end
  end.

(** [sep.join(l)] *)
Definition join (sep : string) (l : list string) : string := String.concat sep l.

(** [set(l)]: the distinct elements (Python fixes no order; every use
    below sorts the result) *)
Definition set (l : list string) : list string := nodup string_dec l.

Fixpoint insert (x : string) (l : list string) : list string :=
  match l with
  | [] => [x]
  | y :: r => if String.leb x y then x :: l else y :: insert x r
  end.

(** [sorted(l)]: ascending in the byte-wise order of [str] *)
Fixpoint sorted (l : list string) : list string :=
  match l with
  | [] => []
  | x :: r => insert x (sorted r)
  end.

(** strictly ascending: sorted and free of duplicates at once *)
Definition lt (a b : string) : Prop := String.compare a b = Lt.
Definition ascending (l : list string) : Prop := StronglySorted lt l.

End PyStr.

(** ** Exceptions and results *)

Inductive exn : Set :=
| NameError | TypeError | ValueError | IndexError | AttributeError
| TryNext                      (* IPython.core.error.TryNext *)
| OtherError (what : string).

Inductive result (A : Type) : Type :=
| Ok (a : A)
| Raise (e : exn).
Arguments Ok {A} a.
Arguments Raise {A} e.

Definition rbind {A B} (r : result A) (k : A -> result B) : result B :=
match r with
| Ok a => k a
| Raise e => Raise e
end.

Declare Scope py_scope.
Delimit Scope py_scope with py.
Notation "x <- c ;; k" := (rbind c (fun x => k))
(at level 61, c at next level, right associativity) : py_scope.

Definition exn_eqb (a b : exn) : bool :=
match a, b with
| NameError, NameError | TypeError, TypeError | ValueError, ValueError
| IndexError, IndexError | AttributeError, AttributeError
| TryNext, TryNext => true
| OtherError x, OtherError y => String.eqb x y
| _, _ => false
end.

(** ** The runtime the module calls into

    [Obj] is the type of Python objects found in the namespaces.  None of the
    services below is code of [completer.py]; each is an oracle. *)

Record World (Obj : Type) : Type := {
  (** [sys.platform == 'win32'] *)
  win32 : bool;
  (** [os.path.expanduser] on a path that starts with a tilde *)
  home_expand : string -> string;
  (** [glob.glob] *)
  glob : string -> list string;
  (** [os.path.isdir] *)
  isdir : string -> bool;
  (** [shlex.split]; [None] stands for [ValueError] *)
  shlex_split : string -> option (list string);
  (** [keyword.kwlist] and [__builtin__.__dict__.keys()] *)
  kwlist : list string;
  builtin_keys : list string;
  (** [eval(expr, namespace)] *)
  py_eval : string -> list (string * Obj) -> result Obj;
  (** [IPython.utils.dir2.dir2] and [IPython.utils.generics.complete_object] *)
  dir2 : Obj -> list string;
  complete_object : Obj -> list string -> result (list string);
  (** [inspect.isfunction], [inspect.ismethod], [inspect.isclass] *)
  isfunction : Obj -> bool;
  ismethod : Obj -> bool;
  isclass : Obj -> bool;
  (** [getattr(obj, '__init__', None)] and [getattr(obj, '__new__', None)],
      [None] also when the attribute is false in a boolean context *)
  getattr_init : Obj -> option Obj;
  getattr_new : Obj -> option Obj;
  (** [obj.__call__] when [hasattr(obj, '__call__')] *)
  getattr_call : Obj -> option Obj;
  (** [inspect.getargspec]: the argument names and the number of defaults *)
  getargspec : Obj -> result (list string * nat);
  (** [shell.lsmagic()] *)
  lsmagic : list string;
  (** [readline.get_line_buffer()] and [readline.get_endidx()] *)
  rl_line_buffer : string;
  rl_endidx : Z;
  (** [re]: the characters that the item made of a backslash and the letter
      or digit [c] accepts inside a character class (a category such as the
      digits, a control character, an octal code, or [c] itself) *)
  re_class_escape : ascii -> ascii -> bool
}.

Arguments win32 {Obj} _.
Arguments home_expand {Obj} _ _.
Arguments glob {Obj} _ _.
Arguments isdir {Obj} _ _.
Arguments shlex_split {Obj} _ _.
Arguments kwlist {Obj} _.
Arguments builtin_keys {Obj} _.
Arguments py_eval {Obj} _ _ _.
Arguments dir2 {Obj} _ _.
Arguments complete_object {Obj} _ _ _.
Arguments isfunction {Obj} _ _.
Arguments ismethod {Obj} _ _.
Arguments isclass {Obj} _ _.
Arguments getattr_init {Obj} _ _.
Arguments getattr_new {Obj} _ _.
Arguments getattr_call {Obj} _ _.
Arguments getargspec {Obj} _ _.
Arguments lsmagic {Obj} _.
Arguments rl_line_buffer {Obj} _.
Arguments rl_endidx {Obj} _.
Arguments re_class_escape {Obj} _ _ _.

(** [os.path.expanduser]: the identity unless the path starts with a tilde *)
Definition expanduser {Obj} (w : World Obj) (path : string) : string :=
  if PyStr.startswith path "~" then home_expand w path else path.

(** ** Module-level functions *)

(** [PROTECTABLES] *)
Definition PROTECTABLES {Obj} (w : World Obj) : string :=
  if win32 w then " " else " ()".

(** [protect_filename]: a backslash before every protectable character *)
Definition protect_filename {Obj} (w : World Obj) (s : string) : string :=
  PyStr.str
    (flat_map (fun ch => if PyStr.mem ch (PROTECTABLES w) then ["\"%char; ch] else [ch])
              (PyStr.chars s)).

(** [mark_dirs]: the loop of the source, [out] being the list it appends to *)
Fixpoint mark_dirs_loop {Obj} (w : World Obj) (matches out : list string) : list string :=
  match matches with
  | [] => out
  | x :: rest =>
      if isdir w x then mark_dirs_loop w rest (out ++ [(x ++ "/")%string])
      else mark_dirs_loop w rest (out ++ [x])
  end.

Definition mark_dirs {Obj} (w : World Obj) (matches : list string) : list string :=
  mark_dirs_loop w matches [].

(** [single_dir_expand].  [listdir] is [os.listdir], which may raise;
    [depth] is the number of frames the interpreter still grants, the
    recursion ending in [RuntimeError] when none is left; [d[-1]] on an empty
    name is [IndexError]. *)
Fixpoint single_dir_expand {Obj} (w : World Obj)
  (listdir : string -> result (list string)) (depth : nat) (matches : list string)
  : result (list string) :=
  match depth with
  | O => Raise (OtherError "RuntimeError")
  | S depth' =>
      match matches with
      | [d0] =>
          if isdir w d0 then
            match rev (PyStr.chars d0) with
            | [] => Raise IndexError
            | c :: r =>
                let d := if Ascii.eqb c "/"%char || Ascii.eqb c "\"%char
                         then PyStr.str (rev r) else d0 in
                match listdir d with
                | Raise e => Raise e
                | Ok [] => Ok matches
                | Ok subdirs =>
                    single_dir_expand w listdir depth'
                      (map (fun p => (d ++ "/" ++ p)%string) subdirs)
                end
            end
          else Ok matches
      | _ => Ok matches
      end
  end.

(** ** [CompletionSplitter] *)

Module CompletionSplitter.

(** [CompletionSplitter._delims] *)
Definition _delims : string :=
  PyStr.str [" "%char; "009"%char; "010"%char; "`"%char; "!"%char; "@"%char;
             "#"%char; "$"%char; "^"%char; "&"%char; "*"%char; "("%char;
             ")"%char; "="%char; "+"%char; "["%char; "{"%char; "]"%char;
             "}"%char; "\"%char; "|"%char; ";"%char; ":"%char; "'"%char;
             "034"%char; ","%char; "<"%char; ">"%char; "?"%char].

(** The characters [_delim_re] splits on.  [set_delims] compiles the
    character class made of every delimiter with a backslash in front: the
    backslash keeps a delimiter that is neither a letter nor a digit
    literal, as all the default ones are, and turns a letter or a digit into
    an escape of [re], which accepts what [re_class_escape] says.  (A
    delimiter string whose class [re] refuses to compile is never the
    splitter's: [set_delims] raises on it.) *)
Definition delimiter {Obj} (w : World Obj) (delims : string) (ch : ascii) : bool :=
  existsb (fun c => if PyStr.is_alnum c then re_class_escape w c ch else Ascii.eqb c ch)
          (PyStr.chars delims).

(** [split_line]: [self._delim_re.split(l)[-1]] *)
Definition split_line {Obj} (w : World Obj) (delims : string) (line : string)
  (cursor_pos : option Z) : string :=
  let l := match cursor_pos with
           | None => line
           | Some p => PyStr.slice_to line p
           end in
  PyStr.split_last (delimiter w delims) l.

End CompletionSplitter.

(** ** Custom completers *)

(** The [Bunch] handed to a custom completer. *)
Record Event : Type := {
  ev_line : string;
  ev_symbol : string;
  ev_command : string
}.

(** A registered callback.  [cb_id] names it in traces; [cb_run] is its
    behaviour: a list of strings, [TryNext], or some other exception (which
    also stands for a return value that cannot be iterated). *)
Record callback : Type := {
  cb_id : nat;
  cb_run : Event -> result (list string)
}.

(** Modelled from the spec: the registry [self.custom_completers], an
    [IPython.utils.strdispatch.StrDispatch] whose class is not part of this
    file.  An entry is a (pattern, callback) pair whose pattern "matches
    either an exact command name or a flat (any-position) match against the
    raw buffer"; entries are kept in the order in which they are tried. *)
Inductive pattern : Type :=
| Exact (command : string)
| Flat (accepts : string -> bool).

Definition registry : Type := list (pattern * callback).

(** Modelled from the spec: [custom_completers.s_matches(key)], the
    callbacks whose pattern is an "exact match on the command name". *)
Definition s_matches (reg : registry) (key : string) : list callback :=
  flat_map (fun e => match fst e with
                     | Exact k => if String.eqb k key then [snd e] else []
                     | Flat _ => []
                     end) reg.

(** Modelled from the spec: [custom_completers.flat_matches(key)], the
    callbacks of the "flat patterns matched anywhere against the raw
    buffer". *)
Definition flat_matches (reg : registry) (key : string) : list callback :=
  flat_map (fun e => match fst e with
                     | Exact _ => []
                     | Flat accepts => if accepts key then [snd e] else []
                     end) reg.

(** ** The completer object

    One record holds the attributes of [Completer] and of [IPCompleter];
    [matches], [full_lbuf] and [lbuf] are the ones the methods assign. *)
Record completer (Obj : Type) : Type := {
  use_main_ns : bool;
  namespace : list (string * Obj);
  global_namespace : list (string * Obj);
  magic_escape : string;            (* [ESC_MAGIC], from the prefilter *)
  delims : string;                 (* of [self.splitter] *)
  use_readline : bool;
  omit__names : nat;
  merge_completions : bool;
  alias_table : list string;       (* [self.alias_table.keys()] *)
  dumb_terminal : bool;
  custom_completers : registry;
  matches : list string;
  full_lbuf : string;
  lbuf : string
}.

Arguments use_main_ns {Obj} _.
Arguments namespace {Obj} _.
Arguments global_namespace {Obj} _.
Arguments magic_escape {Obj} _.
Arguments delims {Obj} _.
Arguments use_readline {Obj} _.
Arguments omit__names {Obj} _.
Arguments merge_completions {Obj} _.
Arguments alias_table {Obj} _.
Arguments dumb_terminal {Obj} _.
Arguments custom_completers {Obj} _.
Arguments matches {Obj} _.
Arguments full_lbuf {Obj} _.
Arguments lbuf {Obj} _.

Definition set_matches {Obj} (self : completer Obj) (m : list string) : completer Obj :=
  {| use_main_ns := use_main_ns self; namespace := namespace self;
     global_namespace := global_namespace self; magic_escape := magic_escape self;
     delims := delims self; use_readline := use_readline self;
     omit__names := omit__names self; merge_completions := merge_completions self;
     alias_table := alias_table self; dumb_terminal := dumb_terminal self;
     custom_completers := custom_completers self;
     matches := m; full_lbuf := full_lbuf self; lbuf := lbuf self |}.

Definition set_namespace {Obj} (self : completer Obj) (ns : list (string * Obj)) : completer Obj :=
  {| use_main_ns := use_main_ns self; namespace := ns;
     global_namespace := global_namespace self; magic_escape := magic_escape self;
     delims := delims self; use_readline := use_readline self;
     omit__names := omit__names self; merge_completions := merge_completions self;
     alias_table := alias_table self; dumb_terminal := dumb_terminal self;
     custom_completers := custom_completers self;
     matches := matches self; full_lbuf := full_lbuf self; lbuf := lbuf self |}.

Definition set_lbufs {Obj} (self : completer Obj) (full part : string) : completer Obj :=
  {| use_main_ns := use_main_ns self; namespace := namespace self;
     global_namespace := global_namespace self; magic_escape := magic_escape self;
     delims := delims self; use_readline := use_readline self;
     omit__names := omit__names self; merge_completions := merge_completions self;
     alias_table := alias_table self; dumb_terminal := dumb_terminal self;
     custom_completers := custom_completers self;
     matches := matches self; full_lbuf := full; lbuf := part |}.

(** ** class [Completer] *)

Module Completer.
Section Methods.
Context {Obj : Type} (w : World Obj).

(** [global_matches]: keywords, built-ins, then the two namespaces *)
Definition global_matches (self : completer Obj) (text : string) : list string :=
  flat_map
    (fun lst => filter (fun word => PyStr.startswith word text
                                    && negb (String.eqb word "__builtins__")) lst)
    [kwlist w; builtin_keys w; map fst (namespace self); map fst (global_namespace self)].

(** Split at the last dot: the text before it and the text after it. *)
Fixpoint rsplit_dot (l : list ascii) : option (list ascii * list ascii) :=
  match l with
  | [] => None
  | c :: r =>
      match rsplit_dot r with
      | Some (a, b) => Some (c :: a, b)
      | None => if Ascii.eqb c "."%char then Some ([], r) else None
      end
  end.

(** The match of [text] against the pattern of [attr_matches], with its
    groups 1 and 3.  The pattern reads: group 1, one or more non-blank
    characters and then any number of (dot, word characters) pieces; a dot;
    group 3, any number of word characters; the end anchor.  Group 3 holds
    word characters only, so the dot in front of it is the last dot of
    [text]; the end anchor accepts the end of the text or a final newline;
    what precedes the last dot must be covered by group 1, that is, be
    non-empty and free of blanks. *)
Definition attr_re_match (text : string) : option (string * string) :=
  match rsplit_dot (PyStr.chars text) with
  | None => None
  | Some (expr, tail) =>
      let attr := PyStr.takewhile PyStr.is_word tail in
      let rest := PyStr.dropwhile PyStr.is_word tail in
      let at_end := match rest with
                    | [] => true
                    | [c] => Ascii.eqb c "010"%char
                    | _ => false
                    end in
      match expr with
      | [] => None
      | _ :: _ =>
          if forallb (fun c => negb (PyStr.is_space c)) expr && at_end
          then Some (PyStr.str expr, PyStr.str attr)
          else None
      end
  end.

(** [attr_matches] *)
Definition attr_matches (self : completer Obj) (text : string) : result (list string) :=
  match attr_re_match text with
  | None => Ok []
  | Some (expr, attr) =>
      let evaluated :=
        match py_eval w expr (namespace self) with
        | Ok obj => Some obj
        | Raise _ =>
            match py_eval w expr (global_namespace self) with
            | Ok obj => Some obj
            | Raise _ => None
            end
        end in
      match evaluated with
      | None => Ok []
      | Some obj =>
          let words := dir2 w obj in
          match complete_object w obj words with
          | Raise TryNext => Ok (map (fun x => (expr ++ "." ++ x)%string)
                                     (filter (fun x => PyStr.startswith x attr) words))
          | Raise e => Raise e
          | Ok words' => Ok (map (fun x => (expr ++ "." ++ x)%string)
                                 (filter (fun x => PyStr.startswith x attr) words'))
          end
      end
  end.

(** [Completer.complete(text, state)]: the new object and what is returned *)
Definition complete (main_dict : list (string * Obj)) (self : completer Obj)
  (text : string) (state : Z) : completer Obj * result (option string) :=
  let self1 := if use_main_ns self then set_namespace self main_dict else self in
  let step :=
    if (state =? 0)%Z then
      if PyStr.contains text "."%char
      then match attr_matches self1 text with
           | Ok m => (set_matches self1 m, Ok tt)
           | Raise e => (self1, Raise e)
           end
      else (set_matches self1 (global_matches self1 text), Ok tt)
    else (self1, Ok tt) in
  match snd step with
  | Raise e => (fst step, Raise e)
  | Ok _ => (fst step, Ok (PyStr.getitem (matches (fst step)) state))
  end.

(** [Completer.__init__] on the object [self] being set up; an argument left
    out is [None].  Without a namespace the attribute [namespace] is not
    assigned. *)
Definition init (self : completer Obj)
  (namespace' global_namespace' : option (list (string * Obj))) : completer Obj :=
  {| use_main_ns := match namespace' with None => true | Some _ => false end;
     namespace := match namespace' with None => namespace self | Some ns => ns end;
     global_namespace := match global_namespace' with None => [] | Some g => g end;
     magic_escape := magic_escape self; delims := delims self;
     use_readline := use_readline self; omit__names := omit__names self;
     merge_completions := merge_completions self; alias_table := alias_table self;
     dumb_terminal := dumb_terminal self;
     custom_completers := custom_completers self;
     matches := matches self; full_lbuf := full_lbuf self; lbuf := lbuf self |}.

(** The caller of [Completer.complete]: readline asks for the states in
    turn, on the same object, and collects what each call returns. *)
Fixpoint session (main_dict : list (string * Obj)) (self : completer Obj)
  (text : string) (states : list Z) : list (result (option string)) :=
  match states with
  | [] => []
  | state :: rest =>
      let '(self', r) := complete main_dict self text state in
      r :: session main_dict self' text rest
  end.

End Methods.
End Completer.

(** ** class [IPCompleter] *)

(** What a run does besides computing: the callbacks and matchers it calls
    and the tab it inserts, in order. *)
Inductive matcher_id : Set :=
| PythonMatches | FileMatches | MagicMatches | AliasMatches | PythonFuncKwMatches.

Inductive action : Set :=
| CallCustom (id : nat)
| CallMatcher (m : matcher_id)
| InsertTab.

Module IPCompleter.
Section Methods.
Context {Obj : Type} (w : World Obj).

(** [_clean_glob] and [_clean_glob_win32], chosen by the platform *)
Definition clean_glob (text : string) : list string :=
  if win32 w
  then map (fun f => PyStr.replace_char f "\"%char "/"%char) (glob w (text ++ "*")%string)
  else glob w (text ++ "*")%string.

(** The [try] block of [file_matches]: [Some (open_quotes, lsplit)], or
    [None] where the method returns the empty list. *)
Definition last_shell_token (lbuf : string) : option (bool * string) :=
  match shlex_split w lbuf with
  | Some toks =>
      match toks with
      | [] => Some (false, "")                       (* IndexError *)
      | _ :: _ => Some (false, last toks "")
      end
  | None =>                                          (* ValueError *)
      if (PyStr.count lbuf "034"%char =? 1)%nat
      then Some (true, PyStr.split_last (Ascii.eqb "034"%char) lbuf)
      else if (PyStr.count lbuf "'"%char =? 1)%nat
      then Some (true, PyStr.split_last (Ascii.eqb "'"%char) lbuf)
      else None
  end.

(** [file_matches] *)
Definition file_matches (self : completer Obj) (text : string) : list string :=
  let '(text, text_prefix) :=
    if PyStr.startswith text "!" then (PyStr.slice_from text 1, "!") else (text, "") in
  match last_shell_token (lbuf self) with
  | None => []
  | Some (open_quotes, lsplit) =>
      let has_protectables := negb (String.eqb lsplit (protect_filename w lsplit)) in
      let text0 := text in
      let text := if has_protectables then lsplit else expanduser w text in
      if String.eqb text ""
      then map (fun f => (text_prefix ++ protect_filename w f)%string) (glob w "*")
      else
        let m0 := clean_glob (PyStr.remove_char text "\"%char) in
        let matches :=
          if has_protectables
          then map (fun f => (text_prefix ++ text0
                              ++ protect_filename w (PyStr.slice_from f (String.length lsplit)))%string)
                   m0
          else if open_quotes then m0
          else map (fun f => (text_prefix ++ protect_filename w f)%string) m0 in
        mark_dirs w matches
  end.

(** [magic_matches] *)
Definition magic_matches (self : completer Obj) (text : string) : list string :=
  let magics := lsmagic w in
  let pre := magic_escape self in
  let baretext := PyStr.lstrip_chars text pre in
  map (fun m => (pre ++ m)%string) (filter (fun m => PyStr.startswith m baretext) magics).

(** [alias_matches] *)
Definition alias_matches (self : completer Obj) (text : string) : list string :=
  if PyStr.contains (PyStr.lstrip (lbuf self)) " "%char
     && negb (PyStr.startswith (PyStr.lstrip (lbuf self)) "sudo")
  then []
  else
    let text := expanduser w text in
    let aliases := alias_table self in
    if String.eqb text "" then aliases
    else filter (fun alias => PyStr.startswith alias text) aliases.

(** The text up to its first newline: what a dot of a regular expression
    can run over when the match starts at the beginning. *)
Definition first_line (s : string) : list ascii :=
  PyStr.takewhile (fun c => negb (Ascii.eqb c "010"%char)) (PyStr.chars s).

(** [no__name] for [omit__names == 1]: no dot followed by two underscores
    and, later on, two underscores again *)
Definition no_dunder_name (txt : string) : bool :=
  match PyStr.after_first (PyStr.chars ".__") (first_line txt) with
  | Some r => match PyStr.after_first (PyStr.chars "__") r with
              | Some _ => false
              | None => true
              end
  | None => true
  end.

(** [no__name] for the other settings: no dot followed by an underscore *)
Definition no_underscore_name (txt : string) : bool :=
  match PyStr.after_first (PyStr.chars "._") (first_line txt) with
  | Some _ => false
  | None => true
  end.

Definition endswith_dot (text : string) : bool :=
  match rev (PyStr.chars text) with
  | c :: _ => Ascii.eqb c "."%char
  | [] => false
  end.

(** [python_matches] *)
Definition python_matches (self : completer Obj) (text : string) : result (list string) :=
  if PyStr.contains text "."%char then
    match Completer.attr_matches w self text with
    | Ok matches =>
        if endswith_dot text && negb (omit__names self =? 0)%nat then
          if (omit__names self =? 1)%nat
          then Ok (filter no_dunder_name matches)
          else Ok (filter no_underscore_name matches)
        else Ok matches
    | Raise NameError => Ok []
    | Raise e => Raise e
    end
  else Ok (Completer.global_matches w self text).

(** [_default_arguments] *)
Definition _default_arguments (obj : Obj) : result (list string) :=
  let target :=
    if negb (isfunction w obj || ismethod w obj) then
      if isclass w obj then
        match getattr_init w obj with
        | Some f => Some f
        | None => getattr_new w obj
        end
      else match getattr_call w obj with
           | Some f => Some f
           | None => Some obj
           end
    else Some obj in
  match target with
  | None => Ok []                        (* [getargspec(None)]: TypeError *)
  | Some f =>
      match getargspec w f with
      | Ok (args, defaults) =>
          if (defaults =? 0)%nat then Ok [] else Ok (PyStr.lastn defaults args)
      | Raise TypeError => Ok []
      | Raise e => Raise e
      end
  end.

(** up to and including the first [q] of [l], when there is one *)
Fixpoint through_quote (q : ascii) (l : list ascii) : option (list ascii) :=
  match l with
  | [] => None
  | c :: r => if Ascii.eqb c q then Some [c]
              else match through_quote q r with
                   | Some t => Some (c :: t)
                   | None => None
                   end
  end.

(** The token [__funcParamsRegex] matches at the head of [l]: a quoted
    string (single, then double quotes; the dot runs over newlines), a run of
    word characters, or one non-blank character. *)
Definition token_at (l : list ascii) : option (list ascii) :=
  match l with
  | [] => None
  | c :: r =>
      let quoted :=
        if Ascii.eqb c "'"%char || Ascii.eqb c "034"%char
        then match through_quote c r with
             | Some t => Some (c :: t)
             | None => None
             end
        else None in
      match quoted with
      | Some t => Some t
      | None =>
          if PyStr.is_word c then Some (PyStr.takewhile PyStr.is_word l)
          else if PyStr.is_space c then None
          else Some [c]
      end
  end.

(** [regexp.findall]: scan from the left; after a token the scan resumes
    behind it ([skip] counts the characters of a token still to step over) *)
Fixpoint findall (skip : nat) (l : list ascii) : list string :=
  match l with
  | [] => []
  | _ :: r =>
      match skip with
      | S k => findall k r
      | O => match token_at l with
             | Some t => PyStr.str t :: findall (List.length t - 1) r
             | None => findall 0 r
             end
      end
  end.

(** The [for] loop over the reversed tokens: what is left of the iterator
    behind the last unclosed parenthesis, [None] when the loop runs out. *)
Fixpoint find_unclosed (iterTokens : list string) (openPar : Z) : option (list string) :=
  match iterTokens with
  | [] => None
  | token :: rest =>
      if String.eqb token ")" then find_unclosed rest (openPar - 1)%Z
      else if String.eqb token "(" then
        if (0 <? openPar + 1)%Z then Some rest
        else find_unclosed rest (openPar + 1)%Z
      else find_unclosed rest openPar
  end.

(** [isId]: word characters up to the end or up to a final newline *)
Definition isId (s : string) : bool :=
  let l := PyStr.chars s in
  match PyStr.takewhile PyStr.is_word l, PyStr.dropwhile PyStr.is_word l with
  | [], _ => false
  | _ :: _, [] => true
  | _ :: _, [c] => Ascii.eqb c "010"%char
  | _ :: _, _ => false
  end.

(** The [while True] loop collecting the dotted name, innermost part first *)
Fixpoint collect_ids (iterTokens : list string) (ids : list string) : list string :=
  match iterTokens with
  | [] => ids                                        (* StopIteration *)
  | x :: it1 =>
      if negb (isId x) then ids                      (* append, then pop *)
      else match it1 with
           | [] => ids ++ [x]                        (* StopIteration *)
           | y :: it2 => if String.eqb y "." then collect_ids it2 (ids ++ [x])
                         else ids ++ [x]
           end
  end.

(** [self.get_line_buffer], bound by [__init__] only under [use_readline] *)
Definition get_line_buffer (self : completer Obj) : result string :=
  if use_readline self then Ok (rl_line_buffer w) else Raise AttributeError.

Definition get_endidx (self : completer Obj) : result Z :=
  if use_readline self then Ok (rl_endidx w) else Raise AttributeError.

(** the body of the loop over [callableMatches] *)
Definition named_args_of (self : completer Obj) (text callableMatch : string) : list string :=
  match py_eval w callableMatch (namespace self) with
  | Raise _ => []
  | Ok obj =>
      match _default_arguments obj with
      | Raise _ => []
      | Ok namedArgs =>
          map (fun namedArg => (namedArg ++ "=")%string)
              (filter (fun namedArg => PyStr.startswith namedArg text) namedArgs)
      end
  end.

(** [python_func_kw_matches] *)
Definition python_func_kw_matches (self : completer Obj) (text : string)
  : result (list string) :=
  if PyStr.contains text "."%char then Ok []
  else
    match get_line_buffer self with
    | Raise e => Raise e
    | Ok buf =>
        let tokens := rev (findall 0 (PyStr.chars buf)) in
        match find_unclosed tokens 0 with
        | None => Ok []
        | Some iterTokens =>
            let ids := collect_ids iterTokens [] in
            match
              (match ids with
               | [name] => Ok (Completer.global_matches w self name)
               | _ => Completer.attr_matches w self (PyStr.join "." (rev ids))
               end)
            with
            | Raise e => Raise e
            | Ok callableMatches =>
                Ok (flat_map (named_args_of self text) callableMatches)
            end
        end
    end.

(** The [for] loop of [dispatch_custom_completer] over the chained
    callbacks: the calls made and the value returned. *)
Fixpoint try_completers (cs : list callback) (event : Event) (text : string)
  : list action * result (option (list string)) :=
  match cs with
  | [] => ([], Ok None)
  | c :: rest =>
      match cb_run c event with
      | Ok res =>
          let withcase := filter (fun r => PyStr.startswith r text) res in
          match withcase with
          | _ :: _ => ([CallCustom (cb_id c)], Ok (Some withcase))
          | [] =>
              let text_low := PyStr.lower text in
              ([CallCustom (cb_id c)],
               Ok (Some (filter (fun r => PyStr.startswith (PyStr.lower r) text_low) res)))
          end
      | Raise TryNext =>
          let '(calls, r) := try_completers rest event text in
          (CallCustom (cb_id c) :: calls, r)
      | Raise e => ([CallCustom (cb_id c)], Raise e)
      end
  end.

(** the callbacks [dispatch_custom_completer] chains for the command [cmd] *)
Definition completer_chain (self : completer Obj) (cmd : string) : list callback :=
  let try_magic :=
    if negb (PyStr.startswith cmd (magic_escape self))
    then s_matches (custom_completers self) (magic_escape self ++ cmd)%string
    else [] in
  s_matches (custom_completers self) cmd ++ try_magic
  ++ flat_matches (custom_completers self) (lbuf self).

(** [dispatch_custom_completer]; [Ok None] is the [None] of the source *)
Definition dispatch_custom_completer (self : completer Obj) (text : string)
  : list action * result (option (list string)) :=
  let line := full_lbuf self in
  match PyStr.first_word line with
  | None => ([], Ok None)                            (* [not line.strip()] *)
  | Some cmd =>
      let event := {| ev_line := line; ev_symbol := text; ev_command := cmd |} in
      try_completers (completer_chain self cmd) event text
  end.

(** [self.matchers], as [__init__] sets it *)
Definition matchers : list matcher_id :=
  [PythonMatches; FileMatches; MagicMatches; AliasMatches; PythonFuncKwMatches].

Definition run_matcher (self : completer Obj) (m : matcher_id) (text : string)
  : result (list string) :=
  match m with
  | PythonMatches => python_matches self text
  | FileMatches => Ok (file_matches self text)
  | MagicMatches => Ok (magic_matches self text)
  | AliasMatches => Ok (alias_matches self text)
  | PythonFuncKwMatches => python_func_kw_matches self text
  end.

(** the loop of merge mode; [acc] is [self.matches] *)
Fixpoint merge_loop (self : completer Obj) (ms : list matcher_id) (text : string)
  (acc : list string) : list string * list action * result unit :=
  match ms with
  | [] => (acc, [], Ok tt)
  | m :: rest =>
      match run_matcher self m text with
      | Raise e => (acc, [CallMatcher m], Raise e)
      | Ok r =>
          let '(acc', calls, res) := merge_loop self rest text (acc ++ r) in
          (acc', CallMatcher m :: calls, res)
      end
  end.

(** the loop of first-match mode; [cur] is [self.matches] *)
Fixpoint first_loop (self : completer Obj) (ms : list matcher_id) (text : string)
  (cur : list string) : list string * list action * result unit :=
  match ms with
  | [] => (cur, [], Ok tt)
  | m :: rest =>
      match run_matcher self m text with
      | Raise e => (cur, [CallMatcher m], Raise e)
      | Ok [] =>
          let '(cur', calls, res) := first_loop self rest text [] in
          (cur', CallMatcher m :: calls, res)
      | Ok r => (r, [CallMatcher m], Ok tt)
      end
  end.

(** The head of [complete]: cursor position, text and line buffer. *)
Definition resolve_request (self : completer Obj)
  (text line_buffer : option string) (cursor_pos : option Z)
  : result (string * string * Z) :=
  match
    (match cursor_pos with
     | Some p => Ok p
     | None =>
         match text with
         | None => match line_buffer with
                   | Some lb => Ok (Z.of_nat (String.length lb))
                   | None => Raise TypeError
                   end
         | Some t => Ok (Z.of_nat (String.length t))
         end
     end)
  with
  | Raise e => Raise e
  | Ok cursor_pos =>
      let not_text := match text with
                      | None => true
                      | Some t => String.eqb t ""
                      end in
      match
        (if not_text then
           match line_buffer with
           | Some lb =>
               Ok (CompletionSplitter.split_line w (delims self) lb (Some cursor_pos))
           | None => Raise TypeError
           end
         else Ok (match text with Some t => t | None => "" end))
      with
      | Raise e => Raise e
      | Ok text =>
          let line_buffer := match line_buffer with
                             | None => text
                             | Some lb => lb
                             end in
          Ok (text, line_buffer, cursor_pos)
      end
  end.

(** [IPCompleter.complete] up to the clean slate: the object with its line
    buffers set and its matches emptied, and the text to complete. *)
Definition prepare (self : completer Obj)
  (text line_buffer : option string) (cursor_pos : option Z)
  : result (completer Obj * string) :=
  match resolve_request self text line_buffer cursor_pos with
  | Raise e => Raise e
  | Ok (text, line_buffer, cursor_pos) =>
      let self := set_lbufs self line_buffer (PyStr.slice_to line_buffer cursor_pos) in
      let text := if PyStr.startswith text "~" then expanduser w text else text in
      Ok (set_matches self [], text)
  end.

(** The [else] branch of [complete]: one of the two loops over
    [self.matchers]. *)
Definition pipeline (self : completer Obj) (text : string)
  : list string * list action * result unit :=
  if merge_completions self
  then merge_loop self matchers text []
  else first_loop self matchers text [].

(** [IPCompleter.complete] from the custom completers on: the new object,
    the calls made, and the pair returned. *)
Definition aggregate (self : completer Obj) (text : string)
  : completer Obj * list action * result (string * list string) :=
  match dispatch_custom_completer self text with
  | (calls, Raise e) => (self, calls, Raise e)
  | (calls, Ok (Some custom_res)) =>
      let result := PyStr.sorted (PyStr.set custom_res) in
      (set_matches self result, calls, Ok (text, result))
  | (calls, Ok None) =>
      let '(found, calls', res) := pipeline self text in
      match res with
      | Raise e => (set_matches self found, calls ++ calls', Raise e)
      | Ok _ =>
          let result := PyStr.sorted (PyStr.set found) in
          (set_matches self result, calls ++ calls', Ok (text, result))
      end
  end.

(** [IPCompleter.complete] *)
Definition complete (self : completer Obj)
  (text line_buffer : option string) (cursor_pos : option Z)
  : completer Obj * list action * result (string * list string) :=
  match prepare self text line_buffer cursor_pos with
  | Raise e => (self, [], Raise e)
  | Ok (self', text') => aggregate self' text'
  end.

(** [IPCompleter.rlcomplete] *)
Definition rlcomplete (self : completer Obj) (text : string) (state : Z)
  : completer Obj * list action * result (option string) :=
  if (state =? 0)%Z then
    match get_line_buffer self with
    | Raise e => (self, [], Raise e)
    | Ok line_buffer =>
        let self := set_lbufs self line_buffer (lbuf self) in
        match get_endidx self with
        | Raise e => (self, [], Raise e)
        | Ok cursor_pos =>
            if negb (dumb_terminal self || negb (PyStr.is_blank line_buffer))
            then (self, [InsertTab], Ok None)
            else
              match complete self (Some text) (Some line_buffer) (Some cursor_pos) with
              | (self', calls, Raise e) => (self', calls, Raise e)
              | (self', calls, Ok _) =>
                  (self', calls, Ok (PyStr.getitem (matches self') state))
              end
        end
    end
  else (self, [], Ok (PyStr.getitem (matches self) state)).

(** The caller of [rlcomplete]: readline asks for the states in turn, on the
    same object, and collects what each call returns. *)
Fixpoint rl_session (self : completer Obj) (text : string) (states : list Z)
  : list (result (option string)) :=
  match states with
  | [] => []
  | state :: rest =>
      let '(self', _, r) := rlcomplete self text state in
      r :: rl_session self' text rest
  end.

End Methods.
End IPCompleter.

(** ** Vocabulary of the statements *)

Definition is_custom_call (a : action) : Prop := exists id, a = CallCustom id.
Definition is_matcher_call (a : action) : Prop := exists m, a = CallMatcher m.

(** a text without a dot *)
Definition dotless (l : list ascii) : Prop :=
  forallb (fun c => negb (Ascii.eqb c "."%char)) l = true.

(** a callback that defers: it raises [TryNext] *)
Definition defers (ev : Event) (c : callback) : Prop := cb_run c ev = Raise TryNext.

(** The grammar the specification gives for a dotted token,
    identifier(.identifier)*.partial, read on the pieces between the dots:
    the last piece is the partial name (word characters, possibly none), the
    pieces before it are identifiers, and there is at least one of them. *)
Definition is_identifier (l : list ascii) : bool :=
  match l with
  | [] => false
  | c :: r =>
      PyStr.is_word c
      && negb ((48 <=? nat_of_ascii c) && (nat_of_ascii c <=? 57))%nat
      && forallb PyStr.is_word r
  end.

Fixpoint dot_pieces (l acc : list ascii) : list (list ascii) :=
  match l with
  | [] => [acc]
  | c :: r => if Ascii.eqb c "."%char then acc :: dot_pieces r []
              else dot_pieces r (acc ++ [c])
  end.

Definition dotted_identifier_grammar (text : string) : bool :=
  match rev (dot_pieces (PyStr.chars text) []) with
  | partial :: (_ :: _) as ids => forallb PyStr.is_word partial && forallb is_identifier ids
  | _ => false
  end.

(** The shape of a token the pattern of [attr_matches] accepts, with the
    head [expr] and the partial name [attr] it yields: a head that is not
    empty and holds no blank, a dot, word characters, and then nothing or
    one final newline. *)
Definition attr_shape (text expr attr : string) : Prop :=
  exists tail,
    text = (expr ++ "." ++ attr ++ tail)%string
    /\ (tail = ""%string \/ tail = PyStr.str ["010"%char])
    /\ expr <> ""%string
    /\ forallb (fun c => negb (PyStr.is_space c)) (PyStr.chars expr) = true
    /\ forallb PyStr.is_word (PyStr.chars attr) = true.

(** The callable [_default_arguments] hands to [inspect.getargspec] for
    [obj]: [obj] itself when it is a function or a method; for a class, its
    [__init__] or else its [__new__], [None] when it has neither; for
    another object, its [__call__] when it has one and else the object
    itself. *)
Definition inspected_callable {Obj} (w : World Obj) (obj : Obj) : option Obj :=
  if isfunction w obj || ismethod w obj then Some obj
  else if isclass w obj then
    match getattr_init w obj with
    | Some f => Some f
    | None => getattr_new w obj
    end
  else match getattr_call w obj with
       | Some f => Some f
       | None => Some obj
       end.

(** what [_clean_glob_win32] makes of one character *)
Definition slashed (d : ascii) : ascii :=
  if Ascii.eqb d "\"%char then "/"%char else d.

(** what [protect_filename] writes for one character *)
Definition escape_char {Obj} (w : World Obj) (ch : ascii) : list ascii :=
  if PyStr.mem ch (PROTECTABLES w) then ["\"%char; ch] else [ch].

(** the part of the line [split_line] works on *)
Definition split_input (line : string) (cursor_pos : option Z) : string :=
  match cursor_pos with
  | None => line
  | Some p => PyStr.slice_to line p
  end.

(** the names [global_matches] runs over, in its order *)
Definition visible_names {Obj} (w : World Obj) (self : completer Obj) : list string :=
  kwlist w ++ builtin_keys w ++ map fst (namespace self) ++ map fst (global_namespace self).

(** the name [single_dir_expand] lists for the match [d]: [d] without one
    final slash or backslash *)
Definition trim_separator (d : string) : string :=
  match rev (PyStr.chars d) with
  | [] => d
  | c :: r => if Ascii.eqb c "/"%char || Ascii.eqb c "\"%char
              then PyStr.str (rev r) else d
  end.

(** the object [Completer.complete] works on: its namespace is
    [__main__.__dict__] when the completer was set up without one *)
Definition rebound {Obj} (main_dict : list (string * Obj)) (self : completer Obj)
  : completer Obj :=
  if use_main_ns self then set_namespace self main_dict else self.

(** the matches [Completer.complete] computes at state 0 *)
Definition computed_matches {Obj} (w : World Obj) (self : completer Obj) (text : string)
  : result (list string) :=
  if PyStr.contains text "."%char
  then Completer.attr_matches w self text
  else Ok (Completer.global_matches w self text).

(** what a matcher contributes: its output, nothing when it raises *)
Definition output_of {Obj} (w : World Obj) (self : completer Obj) (text : string)
  (m : matcher_id) : list string :=
  match IPCompleter.run_matcher w self m text with
  | Ok l => l
  | Raise _ => []
  end.

(** the object with another setting of [omit__names], and without readline *)
Definition set_omit__names {Obj} (self : completer Obj) (n : nat) : completer Obj :=
  {| use_main_ns := use_main_ns self; namespace := namespace self;
     global_namespace := global_namespace self; magic_escape := magic_escape self;
     delims := delims self; use_readline := use_readline self;
     omit__names := n; merge_completions := merge_completions self;
     alias_table := alias_table self; dumb_terminal := dumb_terminal self;
     custom_completers := custom_completers self;
     matches := matches self; full_lbuf := full_lbuf self; lbuf := lbuf self |}.

Definition without_readline {Obj} (self : completer Obj) : completer Obj :=
  {| use_main_ns := use_main_ns self; namespace := namespace self;
     global_namespace := global_namespace self; magic_escape := magic_escape self;
     delims := delims self; use_readline := false;
     omit__names := omit__names self; merge_completions := merge_completions self;
     alias_table := alias_table self; dumb_terminal := dumb_terminal self;
     custom_completers := custom_completers self;
     matches := matches self; full_lbuf := full_lbuf self; lbuf := lbuf self |}.

(** ** A concrete runtime for the examples *)

Module Demo.

(** The objects of the example namespaces. *)
Inductive pyobj : Set :=
| PyFunction (args : list string) (defaults : nat)
| PyString
| PyInstance (members : list string).

(** A directory without subdirectory contents: names and whether each one is
    a directory. *)
Definition directory : Set := list (string * bool).

(** [glob.glob] on a pattern that is a literal prefix followed by a star,
    in a flat current directory: a leading dot is matched only by a pattern
    that spells it. *)
Definition dir_glob (d : directory) (pat : string) : list string :=
  match rev (PyStr.chars pat) with
  | "*"%char :: rp =>
      let pre := PyStr.str (rev rp) in
      filter (fun name => PyStr.startswith name pre
                          && (PyStr.startswith pre "." || negb (PyStr.startswith name ".")))
             (map fst d)
  | _ => filter (String.eqb pat) (map fst d)
  end.

(** [os.path.isdir] in that directory; trailing separators are ignored, as
    the operating system does for a directory *)
Definition dir_isdir (d : directory) (path : string) : bool :=
  let name := PyStr.str (rev (PyStr.dropwhile (Ascii.eqb "/"%char) (rev (PyStr.chars path)))) in
  existsb (fun e => String.eqb (fst e) name && snd e) d.

(** [str.split()]: the blank-separated words of a line *)
Fixpoint words (l acc : list ascii) : list string :=
  match l with
  | [] => match acc with [] => [] | _ => [PyStr.str acc] end
  | c :: r =>
      if PyStr.is_space c
      then match acc with [] => words r [] | _ => PyStr.str acc :: words r [] end
      else words r (acc ++ [c])
  end.

(** [shlex.split] on a line without quotes and backslashes, where it splits
    on blanks; the examples use no other line *)
Definition plain_shlex (line : string) : option (list string) :=
  if PyStr.contains line "'"%char || PyStr.contains line "034"%char
     || PyStr.contains line "\"%char
  then None
  else Some (words (PyStr.chars line) []).

Definition lookup (ns : list (string * pyobj)) (name : string) : option pyobj :=
  match find (fun e => String.eqb (fst e) name) ns with
  | Some e => Some (snd e)
  | None => None
  end.

(** [eval] on a name (looked up in the namespace handed over) and on the
    empty string literal; anything else is taken to fail *)
Definition demo_eval (expr : string) (ns : list (string * pyobj)) : result pyobj :=
  if String.eqb expr "''" then Ok PyString
  else match lookup ns expr with
       | Some o => Ok o
       | None => Raise NameError
       end.

Definition demo_dir (o : pyobj) : list string :=
  match o with
  | PyFunction _ _ => ["__call__"; "func_name"]
  | PyString => ["join"; "lower"; "upper"]
  | PyInstance members => members
  end.

(** [keyword.kwlist] of Python 2.7 *)
Definition py27_kwlist : list string :=
  ["and"; "as"; "assert"; "break"; "class"; "continue"; "def"; "del"; "elif";
   "else"; "except"; "exec"; "finally"; "for"; "from"; "global"; "if";
   "import"; "in"; "is"; "lambda"; "not"; "or"; "pass"; "print"; "raise";
   "return"; "try"; "while"; "with"; "yield"].

(** [re] on a backslash and a letter or digit inside a character class: the
    categories, the control characters, the octal codes, and the character
    itself for the other letters.  ([re] refuses the class for [x], [8] and
    [9]: no splitter has them, and the value given here is never used.) *)
Definition class_escape (c ch : ascii) : bool :=
  let n := nat_of_ascii ch in
  let digit := ((48 <=? n) && (n <=? 57))%nat in
  match c with
  | "d"%char => digit
  | "D"%char => negb digit
  | "s"%char => PyStr.is_space ch
  | "S"%char => negb (PyStr.is_space ch)
  | "w"%char => PyStr.is_word ch
  | "W"%char => negb (PyStr.is_word ch)
  | "a"%char => (n =? 7)%nat
  | "b"%char => (n =? 8)%nat
  | "t"%char => (n =? 9)%nat
  | "n"%char => (n =? 10)%nat
  | "v"%char => (n =? 11)%nat
  | "f"%char => (n =? 12)%nat
  | "r"%char => (n =? 13)%nat
  | _ => if ((48 <=? nat_of_ascii c) && (nat_of_ascii c <=? 55))%nat
         then (n =? nat_of_ascii c - 48)%nat
         else Ascii.eqb c ch
  end.

(** The runtime: a current directory [d], a readline buffer [buf] with the
    cursor at its end, and the magics [time], [timeit] and [cd]. *)
Definition world (d : directory) (buf : string) : World pyobj :=
  {| win32 := false;
     home_expand := fun p => ("/home/user" ++ PyStr.slice_from p 1)%string;
     glob := dir_glob d;
     isdir := dir_isdir d;
     shlex_split := plain_shlex;
     kwlist := py27_kwlist;
     builtin_keys := ["abs"; "len"; "__builtins__"];
     py_eval := demo_eval;
     dir2 := demo_dir;
     complete_object := fun _ _ => Raise TryNext;
     isfunction := fun o => match o with PyFunction _ _ => true | _ => false end;
     ismethod := fun _ => false;
     isclass := fun _ => false;
     getattr_init := fun _ => None;
     getattr_new := fun _ => None;
     getattr_call := fun _ => None;
     getargspec := fun o => match o with
                            | PyFunction args n => Ok (args, n)
                            | _ => Raise TypeError
                            end;
     lsmagic := ["time"; "timeit"; "cd"];
     rl_line_buffer := buf;
     rl_endidx := Z.of_nat (String.length buf);
     re_class_escape := class_escape |}.

(** The directory of the scenario: a file [a.txt] and a directory [sub]. *)
Definition cwd : directory := [("a.txt", false); ("sub", true)].

(** A completer over readline, in merge mode unless told otherwise, with the
    namespace and the registry given and the line buffers [full] and [part]
    as [complete] would have set them. *)
Definition ip (ns : list (string * pyobj)) (reg : registry) (merge : bool)
  (full part : string) : completer pyobj :=
  {| use_main_ns := false; namespace := ns; global_namespace := [];
     magic_escape := "%"; delims := CompletionSplitter._delims;
     use_readline := true; omit__names := 0; merge_completions := merge;
     alias_table := ["ls"; "ll"]; dumb_terminal := false;
     custom_completers := reg; matches := []; full_lbuf := full; lbuf := part |}.

(** [foo(bar, baz=1, qux=2)] *)
Definition foo : pyobj := PyFunction ["bar"; "baz"; "qux"] 2.

(** a callback that always answers [res] *)
Definition answering (id : nat) (res : list string) : callback :=
  {| cb_id := id; cb_run := fun _ => Ok res |}.

(** a callback that always defers *)
Definition deferring (id : nat) : callback :=
  {| cb_id := id; cb_run := fun _ => Raise TryNext |}.


(** the runtime of the examples on win32, where [glob] finds the two files
    of the directory [sub], written with backslashes *)
Definition win32_world : World pyobj :=
  {| win32 := true;
     home_expand := home_expand (world cwd "");
     glob := fun pat => if String.eqb pat "sub\*"
                        then ["sub\x.py"; "sub\y.txt"] else [];
     isdir := isdir (world cwd "");
     shlex_split := shlex_split (world cwd "");
     kwlist := kwlist (world cwd "");
     builtin_keys := builtin_keys (world cwd "");
     py_eval := py_eval (world cwd "");
     dir2 := dir2 (world cwd "");
     complete_object := complete_object (world cwd "");
     isfunction := isfunction (world cwd "");
     ismethod := ismethod (world cwd "");
     isclass := isclass (world cwd "");
     getattr_init := getattr_init (world cwd "");
     getattr_new := getattr_new (world cwd "");
     getattr_call := getattr_call (world cwd "");
     getargspec := getargspec (world cwd "");
     lsmagic := lsmagic (world cwd "");
     rl_line_buffer := "";
     rl_endidx := 0;
     re_class_escape := class_escape |}.

(** [os.listdir] in the example: the directory [sub] holds two files *)
Definition listdir (d : string) : result (list string) :=
  if String.eqb d "sub" then Ok ["x.py"; "y.py"] else Raise (OtherError "OSError").


End Demo.

(** * Properties *)

(** ** Strings, sets and sorting *)

Module PyStrFacts.
Import PyStr.

Lemma compare_as_OT (a b : string) : String.compare a b = String_as_OT.compare a b.
Proof.
  revert b; induction a as [|c a IH]; intros [|d b]; simpl; try reflexivity.
Qed.

Lemma lt_trans (a b c : string) : lt a b -> lt b c -> lt a c.
Proof.
  unfold lt. rewrite !compare_as_OT.
  exact (@StrictOrder_Transitive _ _ String_as_OT.lt_strorder a b c).
Qed.

Lemma lt_irrefl (a : string) : ~ lt a a.
Proof.
  unfold lt. rewrite compare_as_OT.
  exact (@StrictOrder_Irreflexive _ _ String_as_OT.lt_strorder a).
Qed.

Lemma leb_false_lt (x y : string) : String.leb x y = false -> lt y x.
Proof.
  unfold String.leb, lt. rewrite (String.compare_antisym y x).
  destruct (String.compare x y); simpl; congruence.
Qed.

Lemma leb_true_neq_lt (x y : string) : String.leb x y = true -> x <> y -> lt x y.
Proof.
  unfold String.leb, lt. intros H Hne.
  destruct (String.compare x y) eqn:E; try congruence.
  apply String.compare_eq_iff in E. contradiction.
Qed.

Lemma lt_leb (x y : string) : lt x y -> String.leb x y = true.
Proof. unfold lt, String.leb. intros ->. reflexivity. Qed.

Lemma in_insert (x y : string) (l : list string) :
  In y (insert x l) <-> y = x \/ In y l.
Proof.
  induction l as [|z l IH]; simpl.
  - intuition congruence.
  - destruct (String.leb x z); simpl; rewrite ?IH; intuition congruence.
Qed.

Lemma in_sorted (y : string) (l : list string) : In y (sorted l) <-> In y l.
Proof.
  induction l as [|x l IH]; simpl; [tauto|].
  rewrite in_insert, IH. intuition congruence.
Qed.

Lemma in_set (y : string) (l : list string) : In y (set l) <-> In y l.
Proof. unfold set. apply nodup_In. Qed.

Lemma in_sorted_set (y : string) (l : list string) : In y (sorted (set l)) -> In y l.
Proof. intros H. apply in_set, in_sorted, H. Qed.

Lemma insert_ascending (x : string) (l : list string) :
  ascending l -> ~ In x l -> ascending (insert x l).
Proof.
  unfold ascending. induction l as [|y l IH]; simpl; intros Hs Hn.
  - constructor; constructor.
  - apply StronglySorted_inv in Hs. destruct Hs as [Hs Hy].
    destruct (String.leb x y) eqn:E.
    + assert (Hxy : lt x y) by (apply leb_true_neq_lt; [exact E | intros ->; tauto]).
      constructor; [constructor; assumption|].
      constructor; [exact Hxy|].
      rewrite Forall_forall in *. intros z Hz. eapply lt_trans; eauto.
    + constructor; [apply IH; tauto|].
      rewrite Forall_forall in *. intros z Hz.
      apply in_insert in Hz. destruct Hz as [->|Hz]; [apply leb_false_lt, E | auto].
Qed.

Lemma sorted_ascending (l : list string) : NoDup l -> ascending (sorted l).
Proof.
  induction 1 as [|x l Hx Hnd IH]; simpl.
  - constructor.
  - apply insert_ascending; [exact IH | rewrite in_sorted; exact Hx].
Qed.

Lemma sorted_set_ascending (l : list string) : ascending (sorted (set l)).
Proof. apply sorted_ascending. unfold set. apply NoDup_nodup. Qed.

Lemma ascending_NoDup (l : list string) : ascending l -> NoDup l.
Proof.
  unfold ascending. induction 1 as [|x l Hs IH Hx]; constructor; [|exact IH].
  intros Hin. rewrite Forall_forall in Hx. exact (lt_irrefl x (Hx x Hin)).
Qed.

Lemma ascending_Sorted_leb (l : list string) :
  ascending l -> Sorted (fun a b => String.leb a b = true) l.
Proof.
  unfold ascending. induction 1 as [|x l Hs IH Hx]; constructor; [exact IH|].
  destruct l as [|y l]; constructor.
  apply lt_leb. inversion Hx; assumption.
Qed.

End PyStrFacts.

Module PrefixFacts.
Import PyStr.

Lemma startswith_iff (s p : string) :
  startswith s p = true <-> exists r, s = (p ++ r)%string.
Proof.
  unfold startswith. revert s; induction p as [|a p IH]; intros s.
  - destruct s; simpl; split; eauto.
  - destruct s as [|b s]; simpl.
    + split; [discriminate | intros [r Hr]; discriminate].
    + destruct (ascii_dec a b) as [->|Hne].
      * rewrite IH. split; intros [r Hr]; exists r; congruence.
      * split; [discriminate | intros [r Hr]; congruence].
Qed.

Lemma startswith_app (p r : string) : startswith (p ++ r) p = true.
Proof. apply startswith_iff. eauto. Qed.

Lemma startswith_refl (p : string) : startswith p p = true.
Proof. apply startswith_iff. exists ""%string. induction p; simpl; congruence. Qed.

Lemma startswith_empty (s : string) : startswith s "" = true.
Proof. apply startswith_iff. exists s. reflexivity. Qed.

Lemma app_assoc_str (a b c : string) : ((a ++ b) ++ c = a ++ (b ++ c))%string.
Proof. induction a; simpl; congruence. Qed.

Lemma startswith_extend (e x a : string) :
  startswith x a = true -> startswith (e ++ x) (e ++ a) = true.
Proof.
  rewrite !startswith_iff. intros [r ->]. exists r.
  symmetry. apply app_assoc_str.
Qed.

Lemma str_chars (s : string) : str (chars s) = s.
Proof. apply string_of_list_ascii_of_string. Qed.

Lemma chars_str (l : list ascii) : chars (str l) = l.
Proof. apply list_ascii_of_string_of_list_ascii. Qed.

Lemma chars_app (a b : string) : chars (a ++ b) = chars a ++ chars b.
Proof. unfold chars. induction a; simpl; congruence. Qed.

Lemma str_app (a b : list ascii) : str (a ++ b) = (str a ++ str b)%string.
Proof. unfold str. induction a; simpl; congruence. Qed.

Lemma lower_app (a b : string) : lower (a ++ b) = (lower a ++ lower b)%string.
Proof. unfold lower. rewrite chars_app, map_app, str_app. reflexivity. Qed.

(** A prefix with matching case is a prefix when case is ignored. *)
Lemma startswith_lower (s p : string) :
  startswith s p = true -> startswith (lower s) (lower p) = true.
Proof.
  rewrite !startswith_iff. intros [r ->]. exists (lower r). apply lower_app.
Qed.

End PrefixFacts.

(** ** [mark_dirs] *)

Section MarkDirs.
Context {Obj : Type} (w : World Obj).

Lemma mark_dirs_loop_map (l out : list string) :
  mark_dirs_loop w l out
  = out ++ map (fun x => if isdir w x then (x ++ "/")%string else x) l.
Proof.
  revert out; induction l as [|x l IH]; intros out; simpl.
  - symmetry; apply app_nil_r.
  - destruct (isdir w x); rewrite IH, <- app_assoc; reflexivity.
Qed.

Lemma append_slash_neq (x : string) : (x ++ "/")%string <> x.
Proof. induction x as [|c x IH]; simpl; [discriminate | congruence]. Qed.

(** C9, as the code has it: [mark_dirs] keeps the length and the order of its
    input, appends one separator to every path that [os.path.isdir] reports
    as a directory, whether or not the path already ends with a separator,
    and returns every other path unchanged.  A directory is therefore never
    returned unchanged. *)
Theorem mark_dirs_appends_to_every_directory (l : list string) :
  mark_dirs w l = map (fun x => if isdir w x then (x ++ "/")%string else x) l
  /\ (forall x, isdir w x = true ->
        mark_dirs w [x] = [(x ++ "/")%string] /\ mark_dirs w [x] <> [x])
  /\ (forall x, isdir w x = false -> mark_dirs w [x] = [x]).
Proof.
  split; [|split].
  - unfold mark_dirs. rewrite mark_dirs_loop_map. reflexivity.
  - intros x Hx. unfold mark_dirs. simpl. rewrite Hx. simpl.
    split; [reflexivity|]. intros H. injection H as H. exact (append_slash_neq x H).
  - intros x Hx. unfold mark_dirs. simpl. rewrite Hx. reflexivity.
Qed.

End MarkDirs.

(** The amended C9 on the directory of the scenario. *)
Lemma mark_dirs_appends_to_every_directory_witness :
  isdir (Demo.world Demo.cwd "") "sub" = true
  /\ mark_dirs (Demo.world Demo.cwd "") ["sub"] = ["sub/"]
  /\ isdir (Demo.world Demo.cwd "") "a.txt" = false
  /\ mark_dirs (Demo.world Demo.cwd "") ["a.txt"] = ["a.txt"].
Proof.
  destruct (mark_dirs_appends_to_every_directory (Demo.world Demo.cwd "") [])
    as (_ & Hdir & Hfile).
  split; [reflexivity|]. split; [apply (Hdir "sub"); reflexivity|].
  split; [reflexivity|]. apply (Hfile "a.txt"); reflexivity.
Defined.

(** C9 fails: [sub/] names a directory and already ends with the separator,
    and [mark_dirs] returns it with a second separator. *)
Lemma mark_dirs_doubles_separator :
  isdir (Demo.world Demo.cwd "") "sub/" = true
  /\ mark_dirs (Demo.world Demo.cwd "") ["sub/"] = ["sub//"]
  /\ mark_dirs (Demo.world Demo.cwd "") (mark_dirs (Demo.world Demo.cwd "") ["sub"])
     <> mark_dirs (Demo.world Demo.cwd "") ["sub"].
Proof. repeat split; try reflexivity. discriminate. Qed.

(** ** [file_matches] on the empty token *)

(** C1 at the scenario: in a directory holding the file [a.txt] and the
    directory [sub], on an empty line, the empty token yields [a.txt] and
    [sub] without a separator: the branch for the empty text returns the
    protected names of [glob("*")] before [mark_dirs] is reached, while a
    token that is not empty has its directories marked. *)
Theorem file_matches_empty_token_unmarked :
  IPCompleter.file_matches (Demo.world Demo.cwd "") (Demo.ip [] [] true "" "") ""
  = ["a.txt"; "sub"]
  /\ IPCompleter.file_matches (Demo.world Demo.cwd "") (Demo.ip [] [] true "" "") ""
     <> ["a.txt"; "sub/"]
  /\ IPCompleter.file_matches (Demo.world Demo.cwd "s") (Demo.ip [] [] true "s" "s") "s"
     = ["sub/"].
Proof. repeat split; try reflexivity. discriminate. Qed.

(** ** The custom completers and the pipeline *)

Section Dispatch.
Context {Obj : Type} (w : World Obj).


Lemma dropwhile_nil (p : ascii -> bool) (l : list ascii) :
  PyStr.dropwhile p l = [] <-> forallb p l = true.
Proof.
  induction l as [|c l IH]; simpl; [tauto|].
  destruct (p c); simpl; [exact IH | split; discriminate].
Qed.

Lemma first_word_blank (s : string) :
  PyStr.first_word s = None <-> PyStr.is_blank s = true.
Proof.
  unfold PyStr.first_word, PyStr.is_blank. rewrite <- dropwhile_nil.
  destruct (PyStr.dropwhile PyStr.is_space (PyStr.chars s)); split; congruence.
Qed.

Lemma try_completers_custom_only cs ev text :
  Forall is_custom_call (fst (IPCompleter.try_completers cs ev text)).
Proof.
  induction cs as [|c cs IH]; simpl; [constructor|].
  destruct (cb_run c ev) as [res|e].
  - destruct (filter _ res); simpl; repeat constructor; eexists; reflexivity.
  - destruct e; simpl; try (repeat constructor; eexists; reflexivity).
    destruct (IPCompleter.try_completers cs ev text) as [calls r]; simpl in *.
    constructor; [eexists; reflexivity | exact IH].
Qed.

Lemma try_completers_none cs ev text :
  snd (IPCompleter.try_completers cs ev text) = Ok None <-> Forall (defers ev) cs.
Proof.
  induction cs as [|c cs IH]; simpl.
  - split; [constructor | reflexivity].
  - unfold defers at 1. destruct (cb_run c ev) as [res|e] eqn:E.
    + split.
      * destruct (filter _ res); simpl; discriminate.
      * intros H. inversion H as [|? ? Hc]; subst. unfold defers in Hc. congruence.
    + destruct e; simpl;
        try (split; [discriminate
                    | intros H; inversion H as [|? ? Hc]; subst;
                      unfold defers in Hc; congruence]).
      destruct (IPCompleter.try_completers cs ev text) as [calls r]; simpl in *.
      rewrite IH. split; [intros H; constructor; assumption
                         | intros H; inversion H; assumption].
Qed.

(** Callbacks that defer are passed over: the loop reaches the callback that
    follows them, calls it, and returns what it yields. *)
Lemma try_completers_skips pre c rest ev text :
  Forall (defers ev) pre ->
  In (CallCustom (cb_id c)) (fst (IPCompleter.try_completers (pre ++ c :: rest) ev text))
  /\ snd (IPCompleter.try_completers (pre ++ c :: rest) ev text)
     = snd (IPCompleter.try_completers (c :: rest) ev text).
Proof.
  induction 1 as [|d pre Hd Hpre IH]; simpl.
  - split; [|reflexivity].
    destruct (cb_run c ev) as [res|e].
    + destruct (filter _ res); simpl; auto.
    + destruct e; simpl; auto.
      destruct (IPCompleter.try_completers rest ev text); simpl; auto.
  - unfold defers in Hd. rewrite Hd.
    destruct (IPCompleter.try_completers (pre ++ c :: rest) ev text) as [calls r].
    simpl in *. tauto.
Qed.

(** The calls of the loop are calls of callbacks in the chain. *)
Lemma try_completers_calls_in_chain cs ev text a :
  In a (fst (IPCompleter.try_completers cs ev text)) ->
  exists c, In c cs /\ a = CallCustom (cb_id c).
Proof.
  induction cs as [|c cs IH]; simpl; [tauto|].
  destruct (cb_run c ev) as [res|e].
  - destruct (filter _ res); simpl; intros [<-|[]]; eauto.
  - destruct e; simpl; try (intros [<-|[]]; eauto).
    destruct (IPCompleter.try_completers cs ev text) as [calls r]; simpl in *.
    intros [<-|H]; [eauto|]. destruct (IH H) as (c' & Hc' & ->). eauto.
Qed.

Lemma dispatch_custom_only (self : completer Obj) text :
  Forall is_custom_call (fst (IPCompleter.dispatch_custom_completer self text)).
Proof.
  unfold IPCompleter.dispatch_custom_completer.
  destruct (PyStr.first_word (full_lbuf self)); simpl;
    [apply try_completers_custom_only | constructor].
Qed.

Lemma merge_loop_calls (self : completer Obj) ms text acc :
  Forall is_matcher_call (snd (fst (IPCompleter.merge_loop w self ms text acc))).
Proof.
  revert acc; induction ms as [|m ms IH]; intros acc; simpl; [constructor|].
  destruct (IPCompleter.run_matcher w self m text) as [r|e]; simpl.
  - specialize (IH (acc ++ r)).
    destruct (IPCompleter.merge_loop w self ms text (acc ++ r)) as [[a c] res]; simpl in *.
    constructor; [eexists; reflexivity | exact IH].
  - repeat constructor. eexists; reflexivity.
Qed.

Lemma first_loop_calls (self : completer Obj) ms text cur :
  Forall is_matcher_call (snd (fst (IPCompleter.first_loop w self ms text cur))).
Proof.
  revert cur; induction ms as [|m ms IH]; intros cur; simpl; [constructor|].
  destruct (IPCompleter.run_matcher w self m text) as [[|x r]|e]; simpl.
  - specialize (IH []).
    destruct (IPCompleter.first_loop w self ms text []) as [[a c] res]; simpl in *.
    constructor; [eexists; reflexivity | exact IH].
  - repeat constructor. eexists; reflexivity.
  - repeat constructor. eexists; reflexivity.
Qed.

(** Both loops begin with a call of the first matcher. *)
Lemma merge_loop_head (self : completer Obj) m ms text acc :
  exists calls, snd (fst (IPCompleter.merge_loop w self (m :: ms) text acc))
                = CallMatcher m :: calls.
Proof.
  simpl. destruct (IPCompleter.run_matcher w self m text) as [r|e]; simpl; eauto.
  destruct (IPCompleter.merge_loop w self ms text (acc ++ r)) as [[a c] res]; simpl; eauto.
Qed.

Lemma first_loop_head (self : completer Obj) m ms text cur :
  exists calls, snd (fst (IPCompleter.first_loop w self (m :: ms) text cur))
                = CallMatcher m :: calls.
Proof.
  simpl. destruct (IPCompleter.run_matcher w self m text) as [[|x r]|e]; simpl; eauto.
  destruct (IPCompleter.first_loop w self ms text []) as [[a c] res]; simpl; eauto.
Qed.

Lemma pipeline_calls (self : completer Obj) text :
  Forall is_matcher_call (snd (fst (IPCompleter.pipeline w self text)))
  /\ exists calls, snd (fst (IPCompleter.pipeline w self text)) = CallMatcher PythonMatches :: calls.
Proof.
  unfold IPCompleter.pipeline, IPCompleter.matchers.
  destruct (merge_completions self);
    split; auto using merge_loop_calls, first_loop_calls, merge_loop_head, first_loop_head.
Qed.

(** [aggregate], in three cases after what the custom completers return. *)
Lemma aggregate_cases (self : completer Obj) text :
  let d := IPCompleter.dispatch_custom_completer self text in
  let a := IPCompleter.aggregate w self text in
  (forall res, snd d = Ok (Some res) ->
     a = (set_matches self (PyStr.sorted (PyStr.set res)), fst d,
          Ok (text, PyStr.sorted (PyStr.set res))))
  /\ (forall e, snd d = Raise e -> a = (self, fst d, Raise e))
  /\ (snd d = Ok None ->
      snd (fst a) = fst d ++ snd (fst (IPCompleter.pipeline w self text))
      /\ forall tok ms, snd a = Ok (tok, ms) ->
           tok = text /\ ms = PyStr.sorted (PyStr.set (fst (fst (IPCompleter.pipeline w self text))))
           /\ fst (fst a) = set_matches self ms).
Proof.
  unfold IPCompleter.aggregate.
  destruct (IPCompleter.dispatch_custom_completer self text) as [calls [[res|]|e]]; simpl.
  - split; [|split]; try discriminate.
    intros res' H. injection H as <-. reflexivity.
  - split; [|split]; try discriminate. intros _.
    destruct (IPCompleter.pipeline w self text) as [[found calls'] [u|e]]; simpl.
    + split; [reflexivity|]. intros tok ms H. injection H as <- <-. auto.
    + split; [reflexivity|]. discriminate.
  - split; [|split]; try discriminate.
    intros e' H. injection H as <-. reflexivity.
Qed.

End Dispatch.

Section Engine.
Context {Obj : Type} (w : World Obj).

Lemma complete_unfold (self : completer Obj) text lb cp self0 tok :
  IPCompleter.prepare w self text lb cp = Ok (self0, tok) ->
  IPCompleter.complete w self text lb cp = IPCompleter.aggregate w self0 tok.
Proof. unfold IPCompleter.complete. intros ->. reflexivity. Qed.

Lemma complete_ok_prepared (self : completer Obj) text lb cp self' calls tok ms :
  IPCompleter.complete w self text lb cp = (self', calls, Ok (tok, ms)) ->
  exists self0 tok0, IPCompleter.prepare w self text lb cp = Ok (self0, tok0).
Proof.
  unfold IPCompleter.complete.
  destruct (IPCompleter.prepare w self text lb cp) as [[self0 tok0]|e]; [eauto|discriminate].
Qed.

(** C3: whenever [IPCompleter.complete] returns, in merge mode, in
    first-match mode, or with the candidates of a custom completer, the list
    of matches it returns (which is also the one it stores) is sorted in the
    order of strings and holds no entry twice. *)
Theorem complete_matches_sorted_distinct
  (self : completer Obj) text line_buffer cursor_pos self' calls tok ms :
  IPCompleter.complete w self text line_buffer cursor_pos = (self', calls, Ok (tok, ms)) ->
  Sorted (fun a b => String.leb a b = true) ms
  /\ NoDup ms
  /\ PyStr.ascending ms
  /\ matches self' = ms.
Proof.
  intros H.
  assert (Hasc : PyStr.ascending ms /\ matches self' = ms).
  { destruct (complete_ok_prepared _ _ _ _ _ _ _ _ H) as (self0 & tok0 & Hp).
    rewrite (complete_unfold _ _ _ _ _ _ Hp) in H.
    destruct (aggregate_cases w self0 tok0) as (Hsome & Hraise & Hnone).
    destruct (IPCompleter.dispatch_custom_completer self0 tok0) as [dcalls [[res|]|e]];
      simpl in *.
    - rewrite (Hsome res eq_refl) in H. injection H as <- _ _ <-.
      split; [apply PyStrFacts.sorted_set_ascending | reflexivity].
    - destruct (Hnone eq_refl) as [_ Hms].
      destruct (Hms tok ms) as (_ & -> & Hm); [rewrite H; reflexivity|].
      split; [apply PyStrFacts.sorted_set_ascending|].
      rewrite H in Hm. simpl in Hm. rewrite Hm. reflexivity.
    - rewrite (Hraise e eq_refl) in H. discriminate. }
  destruct Hasc as [Hasc Hm].
  auto using PyStrFacts.ascending_Sorted_leb, PyStrFacts.ascending_NoDup.
Qed.

(** C4, as the code has it: a result of [dispatch_custom_completer] other
    than [None], the empty list included, becomes the match set (sorted, its
    duplicates removed) and only callbacks have been called; a matcher of the
    pipeline is called exactly when the dispatch returns [None]; and [None]
    is returned exactly when the line buffer is blank, in which case no
    callback is tried at all, or every callback of the chain has deferred. *)
Theorem custom_result_replaces_pipeline
  (self : completer Obj) text line_buffer cursor_pos self0 tok :
  IPCompleter.prepare w self text line_buffer cursor_pos = Ok (self0, tok) ->
  (forall res,
      snd (IPCompleter.dispatch_custom_completer self0 tok) = Ok (Some res) ->
      IPCompleter.complete w self text line_buffer cursor_pos
      = (set_matches self0 (PyStr.sorted (PyStr.set res)),
         fst (IPCompleter.dispatch_custom_completer self0 tok),
         Ok (tok, PyStr.sorted (PyStr.set res)))
      /\ Forall is_custom_call (fst (IPCompleter.dispatch_custom_completer self0 tok)))
  /\ ((exists m, In (CallMatcher m)
                    (snd (fst (IPCompleter.complete w self text line_buffer cursor_pos))))
      <-> snd (IPCompleter.dispatch_custom_completer self0 tok) = Ok None)
  /\ (snd (IPCompleter.dispatch_custom_completer self0 tok) = Ok None
      <-> PyStr.is_blank (full_lbuf self0) = true
          \/ exists cmd,
               PyStr.first_word (full_lbuf self0) = Some cmd
               /\ Forall (defers {| ev_line := full_lbuf self0; ev_symbol := tok;
                                    ev_command := cmd |})
                         (IPCompleter.completer_chain self0 cmd)).
Proof.
  intros Hp. rewrite (complete_unfold _ _ _ _ _ _ Hp).
  destruct (aggregate_cases w self0 tok) as (Hsome & Hraise & Hnone).
  pose proof (dispatch_custom_only self0 tok) as Hcustom.
  split; [|split].
  - intros res Hres. split; [apply Hsome, Hres | exact Hcustom].
  - split.
    + intros [m Hm].
      destruct (snd (IPCompleter.dispatch_custom_completer self0 tok))
        as [[res|]|e] eqn:E; [| reflexivity |].
      * rewrite (Hsome res eq_refl) in Hm. simpl in Hm.
        rewrite Forall_forall in Hcustom. destruct (Hcustom _ Hm); discriminate.
      * rewrite (Hraise e eq_refl) in Hm. simpl in Hm.
        rewrite Forall_forall in Hcustom. destruct (Hcustom _ Hm); discriminate.
    + intros E. destruct (Hnone E) as [-> _].
      destruct (pipeline_calls w self0 tok) as [_ [calls ->]].
      exists PythonMatches. apply in_or_app. right. left. reflexivity.
  - unfold IPCompleter.dispatch_custom_completer.
    destruct (PyStr.first_word (full_lbuf self0)) as [cmd|] eqn:E; simpl.
    + rewrite try_completers_none. split.
      * intros H. right. exists cmd. split; [reflexivity | exact H].
      * intros [Hb | [cmd' [Hc H]]].
        -- apply first_word_blank in Hb. congruence.
        -- injection Hc as <-. exact H.
    + split; [|reflexivity]. intros _. left. apply first_word_blank, E.
Qed.

Lemma prepare_with_line_buffer (self : completer Obj) text lb cursor_pos :
  exists self0 tok,
    IPCompleter.prepare w self text (Some lb) cursor_pos = Ok (self0, tok)
    /\ full_lbuf self0 = lb.
Proof.
  unfold IPCompleter.prepare, IPCompleter.resolve_request.
  destruct cursor_pos as [p|]; destruct text as [t|]; simpl;
    try destruct (String.eqb t ""); simpl; eexists; eexists; split; reflexivity.
Qed.

(** C10: a request that brings its line buffer is always prepared, with that
    buffer as the full line; and whenever the line buffer of a prepared
    request is empty or holds blanks only, [dispatch_custom_completer]
    returns [None] and calls no callback, and [complete] goes on to the
    pipeline: its calls begin with the first matcher and are calls of
    matchers only. *)
Theorem blank_line_skips_custom_completers
  (self : completer Obj) text line_buffer cursor_pos :
  (forall lb, line_buffer = Some lb ->
     exists self0 tok,
       IPCompleter.prepare w self text line_buffer cursor_pos = Ok (self0, tok)
       /\ full_lbuf self0 = lb)
  /\ (forall self0 tok,
        IPCompleter.prepare w self text line_buffer cursor_pos = Ok (self0, tok) ->
        PyStr.is_blank (full_lbuf self0) = true ->
        IPCompleter.dispatch_custom_completer self0 tok = ([], Ok None)
        /\ exists calls,
             snd (fst (IPCompleter.complete w self text line_buffer cursor_pos))
             = CallMatcher PythonMatches :: calls
             /\ Forall is_matcher_call calls).
Proof.
  split.
  - intros lb ->. apply prepare_with_line_buffer.
  - intros self0 tok Hp Hb.
    assert (Hd : IPCompleter.dispatch_custom_completer self0 tok = ([], Ok None)).
    { unfold IPCompleter.dispatch_custom_completer.
      apply first_word_blank in Hb. rewrite Hb. reflexivity. }
    split; [exact Hd|].
    rewrite (complete_unfold _ _ _ _ _ _ Hp).
    destruct (aggregate_cases w self0 tok) as (_ & _ & Hnone).
    rewrite Hd in Hnone. simpl in Hnone. destruct (Hnone eq_refl) as [-> _].
    destruct (pipeline_calls w self0 tok) as [Hall [calls Hc]].
    exists calls. split; [exact Hc|].
    rewrite Hc in Hall. inversion Hall; assumption.
Qed.

(** C7, as the code has it: when the command word of the buffer does not
    start with the magic escape and every completer registered for that very
    word defers, the first completer registered for the word with the escape
    in front is called, and the result is the one the loop computes from it
    on.  When the command word does start with the escape, the callbacks
    tried are those registered for that very word and the flat ones: nothing
    registered under the bare word is looked up. *)
Theorem magic_completer_fires_for_bare_command
  (self : completer Obj) text cmd :
  PyStr.first_word (full_lbuf self) = Some cmd ->
  (PyStr.startswith cmd (magic_escape self) = false ->
   forall c rest,
     Forall (defers {| ev_line := full_lbuf self; ev_symbol := text; ev_command := cmd |})
            (s_matches (custom_completers self) cmd) ->
     s_matches (custom_completers self) (magic_escape self ++ cmd) = c :: rest ->
     In (CallCustom (cb_id c)) (fst (IPCompleter.dispatch_custom_completer self text))
     /\ snd (IPCompleter.dispatch_custom_completer self text)
        = snd (IPCompleter.try_completers
                 (c :: rest ++ flat_matches (custom_completers self) (lbuf self))
                 {| ev_line := full_lbuf self; ev_symbol := text; ev_command := cmd |}
                 text))
  /\ (PyStr.startswith cmd (magic_escape self) = true ->
      forall a, In a (fst (IPCompleter.dispatch_custom_completer self text)) ->
      exists c, In c (s_matches (custom_completers self) cmd
                      ++ flat_matches (custom_completers self) (lbuf self))
                /\ a = CallCustom (cb_id c)).
Proof.
  intros Hw. unfold IPCompleter.dispatch_custom_completer. rewrite Hw.
  unfold IPCompleter.completer_chain. split.
  - intros Hesc c rest Hdef Hm. rewrite Hesc, Hm. simpl.
    apply try_completers_skips. exact Hdef.
  - intros Hesc a Ha. rewrite Hesc in Ha. simpl in Ha.
    apply try_completers_calls_in_chain in Ha. exact Ha.
Qed.

End Engine.

(** ** [attr_matches] *)

Module AttrFacts.
Import PyStr PrefixFacts.

Lemma rsplit_dot_none (l : list ascii) : dotless l -> Completer.rsplit_dot l = None.
Proof.
  unfold dotless. induction l as [|c l IH]; simpl; [reflexivity|].
  rewrite andb_true_iff, negb_true_iff. intros [Hc Hl].
  rewrite (IH Hl), Hc. reflexivity.
Qed.

Lemma rsplit_dot_last (a b : list ascii) :
  dotless b -> Completer.rsplit_dot (a ++ "."%char :: b) = Some (a, b).
Proof.
  intros Hb. induction a as [|c a IH]; simpl.
  - rewrite (rsplit_dot_none b Hb). reflexivity.
  - rewrite IH. reflexivity.
Qed.

Lemma rsplit_dot_some (l a b : list ascii) :
  Completer.rsplit_dot l = Some (a, b) -> l = a ++ "."%char :: b.
Proof.
  revert a b; induction l as [|c l IH]; intros a b; simpl; [discriminate|].
  destruct (Completer.rsplit_dot l) as [[a' b']|].
  - intros H. injection H as <- <-. rewrite (IH a' b' eq_refl). reflexivity.
  - destruct (Ascii.eqb c ".") eqn:E; [|discriminate].
    apply Ascii.eqb_eq in E. intros H. injection H as <- <-. subst c. reflexivity.
Qed.

Lemma take_drop_while (p : ascii -> bool) (l : list ascii) :
  takewhile p l ++ dropwhile p l = l.
Proof. induction l as [|c l IH]; simpl; [reflexivity|]. destruct (p c); simpl; congruence. Qed.

Lemma takewhile_all (p : ascii -> bool) (l : list ascii) : forallb p (takewhile p l) = true.
Proof. induction l as [|c l IH]; simpl; [reflexivity|]. destruct (p c) eqn:E; simpl; [rewrite E|]; auto. Qed.

Lemma takewhile_app (p : ascii -> bool) (a t : list ascii) :
  forallb p a = true -> (match t with [] => True | c :: _ => p c = false end) ->
  takewhile p (a ++ t) = a /\ dropwhile p (a ++ t) = t.
Proof.
  intros Ha Ht. induction a as [|c a IH]; simpl in *.
  - destruct t as [|c t]; simpl; [auto|]. rewrite Ht. auto.
  - apply andb_true_iff in Ha. destruct Ha as [Hc Ha]. rewrite Hc.
    destruct (IH Ha) as [-> ->]. auto.
Qed.

Lemma word_dotless (l : list ascii) : forallb is_word l = true -> dotless l.
Proof.
  unfold dotless. induction l as [|c l IH]; simpl; [reflexivity|].
  rewrite !andb_true_iff. intros [Hc Hl]. split; [|auto].
  destruct (Ascii.eqb c ".") eqn:E; [|reflexivity].
  apply Ascii.eqb_eq in E. subst c. discriminate.
Qed.

(** What a match of the pattern says about the text. *)
Lemma attr_re_match_some (text expr attr : string) :
  Completer.attr_re_match text = Some (expr, attr) ->
  exists tail,
    text = (expr ++ "." ++ attr ++ tail)%string
    /\ (tail = ""%string \/ tail = str ["010"%char])
    /\ expr <> ""%string
    /\ forallb (fun c => negb (is_space c)) (chars expr) = true
    /\ forallb is_word (chars attr) = true.
Proof.
  unfold Completer.attr_re_match.
  destruct (Completer.rsplit_dot (chars text)) as [[e t]|] eqn:E; [|discriminate].
  apply rsplit_dot_some in E.
  destruct e as [|c e]; [discriminate|].
  destruct (forallb (fun c0 => negb (is_space c0)) (c :: e)) eqn:Hns; [|discriminate].
  pose proof (take_drop_while is_word t) as Htd.
  pose proof (takewhile_all is_word t) as Hw.
  assert (Htext : text = (str (c :: e) ++ "." ++ str (takewhile is_word t)
                          ++ str (dropwhile is_word t))%string).
  { rewrite <- (str_chars text), E, str_app. f_equal.
    change ("."%char :: t) with (["."%char] ++ t). rewrite str_app. f_equal.
    rewrite <- str_app, Htd. reflexivity. }
  destruct (dropwhile is_word t) as [|d [|d' r]] eqn:Hd;
    cbv beta iota zeta delta [andb]; try discriminate.
  - intros H. injection H as <- <-. exists ""%string.
    rewrite !chars_str. repeat split; auto; try discriminate.
    change (String c (str e)) with (str (c :: e)). rewrite chars_str. exact Hns.
  - destruct (Ascii.eqb d "010") eqn:Ed; [|discriminate].
    apply Ascii.eqb_eq in Ed. subst d.
    intros H. injection H as <- <-. exists (str ["010"%char]).
    rewrite !chars_str. repeat split; auto; try discriminate.
    change (String c (str e)) with (str (c :: e)). rewrite chars_str. exact Hns.
Qed.

(** Every text of that shape matches, whatever non-blank characters its head
    is made of. *)
Lemma attr_re_match_complete (expr attr tail : string) :
  expr <> ""%string ->
  forallb (fun c => negb (is_space c)) (chars expr) = true ->
  forallb is_word (chars attr) = true ->
  tail = ""%string \/ tail = str ["010"%char] ->
  Completer.attr_re_match (expr ++ "." ++ attr ++ tail) = Some (expr, attr).
Proof.
  intros Hne Hns Hw Htail. unfold Completer.attr_re_match.
  rewrite !chars_app. change (chars ".") with ["."%char]. simpl app at 2.
  assert (Hdl : dotless (chars attr ++ chars tail)).
  { unfold dotless. rewrite forallb_app. apply andb_true_iff. split.
    - apply word_dotless, Hw.
    - destruct Htail as [-> | ->]; reflexivity. }
  rewrite (rsplit_dot_last _ _ Hdl).
  assert (Ht : match chars tail with [] => True | c :: _ => is_word c = false end)
    by (destruct Htail as [-> | ->]; simpl; auto).
  destruct (takewhile_app is_word (chars attr) (chars tail) Hw Ht) as [-> ->].
  destruct (chars expr) as [|c e] eqn:Ee.
  - exfalso. apply Hne. rewrite <- (str_chars expr), Ee. reflexivity.
  - rewrite Hns. rewrite <- Ee, !str_chars.
    destruct Htail as [-> | ->]; reflexivity.
Qed.

End AttrFacts.

Section Attributes.
Context {Obj : Type} (w : World Obj).
Import PyStr PrefixFacts.

Lemma attr_matches_unresolved (self : completer Obj) text expr attr e1 e2 :
  Completer.attr_re_match text = Some (expr, attr) ->
  py_eval w expr (namespace self) = Raise e1 ->
  py_eval w expr (global_namespace self) = Raise e2 ->
  Completer.attr_matches w self text = Ok [].
Proof.
  intros Hm H1 H2. unfold Completer.attr_matches. rewrite Hm, H1, H2. reflexivity.
Qed.

(** C6, as the code has it: [attr_matches] returns the empty list when the
    token does not match its pattern, that is, when it is not made of a
    non-empty head free of blanks, a dot, and word characters (then,
    possibly, one final newline); the pattern accepts exactly the tokens of
    that shape, the head being any text and not only dotted identifiers;
    when the head evaluates in neither namespace, whatever the two
    evaluations raise, it returns the empty list and raises nothing; so it
    does on [notdefined.x]. *)
Theorem attr_matches_fails_soft (self : completer Obj) :
  (forall text,
      (forall expr attr, ~ attr_shape text expr attr) ->
      Completer.attr_matches w self text = Ok [])
  /\ (forall text expr attr,
         attr_shape text expr attr <-> Completer.attr_re_match text = Some (expr, attr))
  /\ (forall text expr attr e1 e2,
         attr_shape text expr attr ->
         py_eval w expr (namespace self) = Raise e1 ->
         py_eval w expr (global_namespace self) = Raise e2 ->
         Completer.attr_matches w self text = Ok [])
  /\ (forall e1 e2,
         py_eval w "notdefined" (namespace self) = Raise e1 ->
         py_eval w "notdefined" (global_namespace self) = Raise e2 ->
         Completer.attr_matches w self "notdefined.x" = Ok []).
Proof.
  assert (Hiff : forall text expr attr,
             attr_shape text expr attr
             <-> Completer.attr_re_match text = Some (expr, attr)).
  { intros text expr attr. split.
    - intros (tail & -> & Htail & Hne & Hns & Hw).
      apply AttrFacts.attr_re_match_complete; assumption.
    - intros Hm. destruct (AttrFacts.attr_re_match_some text expr attr Hm)
        as (tail & H1 & H2 & H3 & H4 & H5).
      exists tail. auto. }
  split; [|split; [|split]].
  - intros text Hno. unfold Completer.attr_matches.
    destruct (Completer.attr_re_match text) as [[expr attr]|] eqn:Hm; [|reflexivity].
    exfalso. apply (Hno expr attr), Hiff, Hm.
  - exact Hiff.
  - intros text expr attr e1 e2 Hs H1 H2.
    exact (attr_matches_unresolved self text expr attr e1 e2
             (proj1 (Hiff text expr attr) Hs) H1 H2).
  - intros e1 e2. apply (attr_matches_unresolved self "notdefined.x" "notdefined" "x").
    reflexivity.
Qed.

End Attributes.

(** The amended C6 on the example runtime, where [notdefined] is bound
    nowhere. *)
Lemma attr_matches_fails_soft_witness :
  Completer.attr_matches (Demo.world Demo.cwd "")
    (Demo.ip [("foo", Demo.foo)] [] true "" "") "notdefined.x" = Ok []
  /\ Completer.attr_matches (Demo.world Demo.cwd "")
       (Demo.ip [("foo", Demo.foo)] [] true "" "") "a b.c" = Ok []
  /\ attr_shape "a-b.c" "a-b" "c".
Proof.
  destruct (attr_matches_fails_soft (Demo.world Demo.cwd "")
              (Demo.ip [("foo", Demo.foo)] [] true "" ""))
    as (Hno & Hiff & _ & Hundef).
  split; [apply (Hundef NameError NameError); reflexivity|].
  split.
  - apply Hno. intros expr attr Hs. apply Hiff in Hs. discriminate Hs.
  - apply Hiff. reflexivity.
Defined.

(** C6 fails: the token [''.j] is not of the form
    identifier(.identifier)*.partial, yet [attr_matches] evaluates its head,
    the empty string literal, and completes on the attributes of the
    result. *)
Lemma attr_matches_accepts_non_identifier_head :
  PyStr.contains "''.j" "."%char = true
  /\ dotted_identifier_grammar "''.j" = false
  /\ Completer.attr_matches (Demo.world Demo.cwd "")
       (Demo.ip [] [] true "" "") "''.j" = Ok ["''.join"].
Proof. repeat split; reflexivity. Qed.

(** ** [python_func_kw_matches] *)

Section KeywordArguments.
Context {Obj : Type} (w : World Obj).
Import PyStr PrefixFacts.

(** A function whose last parameters carry defaults: those are the names
    [_default_arguments] returns. *)
Lemma default_arguments_of_function (f : Obj) (positional named : list string) :
  isfunction w f = true ->
  named <> [] ->
  getargspec w f = Ok (positional ++ named, List.length named) ->
  IPCompleter._default_arguments w f = Ok named.
Proof.
  intros Hf Hn Hspec. unfold IPCompleter._default_arguments.
  rewrite Hf. simpl. rewrite Hspec.
  destruct named as [|n named]; [contradiction|]. simpl Nat.eqb.
  unfold lastn. rewrite length_app.
  replace (List.length positional + List.length (n :: named) - List.length (n :: named))
    with (List.length positional) by lia.
  rewrite skipn_app, skipn_all, Nat.sub_diag. reflexivity.
Qed.



End KeywordArguments.



(** ** Where the candidates come from *)

Section Candidates.
Context {Obj : Type} (w : World Obj).
Import PyStr PrefixFacts.

Lemma global_matches_prefix (self : completer Obj) t c :
  In c (Completer.global_matches w self t) -> startswith c t = true.
Proof.
  unfold Completer.global_matches. rewrite in_flat_map.
  intros (lst & _ & Hc). apply filter_In in Hc. destruct Hc as [_ Hc].
  apply andb_true_iff in Hc. tauto.
Qed.

Lemma attr_matches_prefix (self : completer Obj) t l c :
  Completer.attr_matches w self t = Ok l -> In c l ->
  exists head tail,
    t = (head ++ tail)%string
    /\ (tail = ""%string \/ tail = str ["010"%char])
    /\ startswith c head = true.
Proof.
  unfold Completer.attr_matches.
  destruct (Completer.attr_re_match t) as [[expr attr]|] eqn:Hm.
  2:{ intros H; injection H as <-; intros []. }
  destruct (AttrFacts.attr_re_match_some t expr attr Hm) as (tail & Ht & Htail & _).
  assert (Hin : forall words, In c (map (fun x => (expr ++ "." ++ x)%string)
                                        (filter (fun x => startswith x attr) words)) ->
                exists head tail, t = (head ++ tail)%string
                  /\ (tail = ""%string \/ tail = str ["010"%char])
                  /\ startswith c head = true).
  { intros words Hc. apply in_map_iff in Hc. destruct Hc as (x & <- & Hx).
    apply filter_In in Hx. destruct Hx as [_ Hx].
    exists (expr ++ "." ++ attr)%string, tail. split; [|split; [exact Htail|]].
    - rewrite Ht, !app_assoc_str. reflexivity.
    - apply startswith_extend, (startswith_extend "."), Hx. }
  destruct (match py_eval w expr (namespace self) with
            | Ok obj => Some obj
            | Raise _ => match py_eval w expr (global_namespace self) with
                         | Ok obj => Some obj
                         | Raise _ => None
                         end
            end) as [obj|].
  2:{ intros H; injection H as <-; intros []. }
  destruct (complete_object w obj (dir2 w obj)) as [words'|e].
  - intros H; injection H as <-. apply Hin.
  - destruct e; try discriminate. intros H; injection H as <-. apply Hin.
Qed.

Lemma magic_matches_shape (self : completer Obj) t c :
  In c (IPCompleter.magic_matches w self t) ->
  exists m, c = (magic_escape self ++ m)%string
            /\ In m (lsmagic w)
            /\ startswith m (lstrip_chars t (magic_escape self)) = true.
Proof.
  unfold IPCompleter.magic_matches. rewrite in_map_iff.
  intros (m & <- & Hm). apply filter_In in Hm. exists m. tauto.
Qed.

Lemma alias_matches_prefix (self : completer Obj) t c :
  In c (IPCompleter.alias_matches w self t) ->
  In c (alias_table self) /\ startswith c (expanduser w t) = true.
Proof.
  unfold IPCompleter.alias_matches.
  destruct (_ && _); [intros []|].
  destruct (String.eqb (expanduser w t) "") eqn:E.
  - apply String.eqb_eq in E. rewrite E. intros H. split; [exact H | apply startswith_empty].
  - intros H. apply filter_In in H. exact H.
Qed.

Lemma kw_matches_prefix (self : completer Obj) t l c :
  IPCompleter.python_func_kw_matches w self t = Ok l -> In c l ->
  contains t "."%char = false /\ startswith c t = true.
Proof.
  unfold IPCompleter.python_func_kw_matches.
  destruct (contains t ".") eqn:Hdot; [intros H; injection H as <-; intros []|].
  destruct (IPCompleter.get_line_buffer w self) as [buf|e]; [|discriminate].
  destruct (IPCompleter.find_unclosed _ _) as [it|];
    [|intros H; injection H as <-; intros []].
  match goal with |- match ?x with _ => _ end = _ -> _ => destruct x as [cms|e] end;
    [|discriminate].
  intros H; injection H as <-. rewrite in_flat_map. intros (cm & _ & Hc).
  split; [reflexivity|].
  unfold IPCompleter.named_args_of in Hc.
  destruct (py_eval w cm (namespace self)) as [obj|]; [|destruct Hc].
  destruct (IPCompleter._default_arguments w obj) as [args|]; [|destruct Hc].
  apply in_map_iff in Hc. destruct Hc as (name & <- & Hn).
  apply filter_In in Hn. destruct Hn as [_ Hn].
  apply startswith_iff in Hn. destruct Hn as [r ->].
  apply startswith_iff. exists (r ++ "=")%string. apply app_assoc_str.
Qed.

Lemma try_completers_prefix cs ev t calls res c :
  IPCompleter.try_completers cs ev t = (calls, Ok (Some res)) -> In c res ->
  startswith (lower c) (lower t) = true.
Proof.
  revert calls; induction cs as [|k cs IH]; intros calls; simpl; [discriminate|].
  destruct (cb_run k ev) as [r|e].
  - destruct (filter (fun r0 => startswith r0 t) r) as [|x xs] eqn:E.
    + intros H; injection H as _ <-. intros Hc. apply filter_In in Hc. tauto.
    + intros H; injection H as _ <-. rewrite <- E. intros Hc.
      apply filter_In in Hc. apply startswith_lower. tauto.
  - destruct e; try discriminate.
    destruct (IPCompleter.try_completers cs ev t) as [calls' r'].
    intros H; injection H as _ ->. eauto.
Qed.

End Candidates.

Section MatchSet.
Context {Obj : Type} (w : World Obj).
Import PyStr PrefixFacts.

Lemma dispatch_prefix (self : completer Obj) t res c :
  snd (IPCompleter.dispatch_custom_completer self t) = Ok (Some res) -> In c res ->
  startswith (lower c) (lower t) = true.
Proof.
  unfold IPCompleter.dispatch_custom_completer.
  destruct (first_word (full_lbuf self)) as [cmd|]; [|discriminate].
  destruct (IPCompleter.try_completers _ _ t) as [calls r] eqn:E. simpl.
  intros ->. eapply try_completers_prefix; eauto.
Qed.

End MatchSet.

(** C2 at the token [ti], which lacks the magic escape: the magic matcher
    yields [%time] and [%timeit], they are the match set that [complete]
    returns with the token [ti], and neither begins with [ti], with or
    without regard to case, although the documentation of [complete] says
    that a completion begins with the text. *)
Lemma magic_candidates_lack_token_prefix :
  IPCompleter.magic_matches (Demo.world Demo.cwd "ti") (Demo.ip [] [] true "ti" "ti") "ti"
  = ["%time"; "%timeit"]
  /\ snd (IPCompleter.complete (Demo.world Demo.cwd "ti") (Demo.ip [] [] true "" "")
            (Some "ti") None None)
     = Ok ("ti", ["%time"; "%timeit"])
  /\ PyStr.startswith "%time" "ti" = false
  /\ PyStr.startswith (PyStr.lower "%time") (PyStr.lower "ti") = false
  /\ PyStr.startswith "ti" "%" = false.
Proof. repeat split; reflexivity. Qed.

(** ** The indexed protocol *)

Section Readline.
Context {Obj : Type} (w : World Obj).
Import PyStr.

Lemma getitem_of_nat {A} (l : list A) (i : nat) : getitem l (Z.of_nat i) = nth_error l i.
Proof.
  unfold getitem. destruct (Z.leb_spec 0 (Z.of_nat i)); [|lia].
  rewrite Nat2Z.id. reflexivity.
Qed.

(** [complete] sets both line buffers itself: those of the object it is
    called on do not matter. *)
Lemma complete_resets_lbufs (self : completer Obj) a b t lb cp :
  IPCompleter.complete w (set_lbufs self a b) (Some t) (Some lb) (Some cp)
  = IPCompleter.complete w self (Some t) (Some lb) (Some cp).
Proof.
  unfold IPCompleter.complete, IPCompleter.prepare, IPCompleter.resolve_request.
  destruct (String.eqb t ""); reflexivity.
Qed.

Lemma complete_ok_stores (self : completer Obj) text lb cp self' calls tok ms :
  IPCompleter.complete w self text lb cp = (self', calls, Ok (tok, ms)) ->
  matches self' = ms.
Proof.
  intros H.
  destruct (complete_ok_prepared w _ _ _ _ _ _ _ _ H) as (self0 & tok0 & Hp).
  rewrite (complete_unfold w _ _ _ _ _ _ Hp) in H.
  destruct (aggregate_cases w self0 tok0) as (Hsome & Hraise & Hnone).
  destruct (snd (IPCompleter.dispatch_custom_completer self0 tok0)) as [[res|]|e].
  - rewrite (Hsome res eq_refl) in H. injection H as <- _ _ <-. reflexivity.
  - destruct (Hnone eq_refl) as [_ Hms].
    destruct (Hms tok ms) as (_ & _ & Hself); [rewrite H; reflexivity|].
    rewrite H in Hself. simpl in Hself. rewrite Hself. reflexivity.
  - rewrite (Hraise e eq_refl) in H. discriminate.
Qed.

Lemma rlcomplete_later (self : completer Obj) t (state : Z) :
  state <> 0%Z ->
  IPCompleter.rlcomplete w self t state = (self, [], Ok (getitem (matches self) state)).
Proof.
  intros Hs. unfold IPCompleter.rlcomplete.
  destruct (Z.eqb_spec state 0); [contradiction | reflexivity].
Qed.

(** The protocol of the base class: past state 0, [Completer.complete]
    serves the stored matches and answers [None] beyond the last one. *)
Lemma base_complete_later (main_dict : list (string * Obj)) (self : completer Obj)
  t (state : Z) :
  state <> 0%Z -> use_main_ns self = false ->
  Completer.complete w main_dict self t state
  = (self, Ok (getitem (matches self) state)).
Proof.
  intros Hs Hm. unfold Completer.complete. rewrite Hm.
  destruct (Z.eqb_spec state 0); [contradiction | reflexivity].
Qed.

Lemma rl_session_later (self : completer Obj) t (states : list Z) :
  Forall (fun s => s <> 0%Z) states ->
  IPCompleter.rl_session w self t states
  = map (fun s => Ok (getitem (matches self) s)) states.
Proof.
  induction 1 as [|s states Hs _ IH]; simpl; [reflexivity|].
  rewrite (rlcomplete_later self t s Hs), IH. reflexivity.
Qed.

Lemma nth_error_seq {A} (pre l : list A) :
  map (nth_error (pre ++ l)) (seq (List.length pre) (List.length l)) = map Some l.
Proof.
  revert pre; induction l as [|x l IH]; intros pre; simpl; [reflexivity|].
  rewrite nth_error_app2, Nat.sub_diag by lia. simpl. f_equal.
  specialize (IH (pre ++ [x])). rewrite <- app_assoc, length_app in IH. simpl in IH.
  rewrite Nat.add_1_r in IH. exact IH.
Qed.

(** C5, as the code has it: when readline is in use and the terminal is
    dumb or the line buffer is not blank, and the batch completion of the
    token on readline's buffer and cursor yields the matches [ms], then
    asking [rlcomplete] for the states 0, 1, ..., k in turn, k being the
    number of matches, returns the k matches in their order and then [None],
    without raising. *)
Theorem rlcomplete_serves_batch_matches
  (self : completer Obj) text self' calls tok ms :
  use_readline self = true ->
  dumb_terminal self = true \/ is_blank (rl_line_buffer w) = false ->
  IPCompleter.complete w self (Some text) (Some (rl_line_buffer w)) (Some (rl_endidx w))
  = (self', calls, Ok (tok, ms)) ->
  IPCompleter.rl_session w self text (map Z.of_nat (seq 0 (S (List.length ms))))
  = map (fun c => Ok (Some c)) ms ++ [Ok None].
Proof.
  intros Hrl Hgate Hbatch.
  pose proof (complete_ok_stores _ _ _ _ _ _ _ _ Hbatch) as Hm.
  assert (H0 : IPCompleter.rlcomplete w self text 0
               = (self', calls, Ok (getitem (matches self') 0))).
  { unfold IPCompleter.rlcomplete, IPCompleter.get_line_buffer, IPCompleter.get_endidx.
    simpl Z.eqb. cbv iota. rewrite Hrl. cbv iota.
    change (use_readline (set_lbufs self (rl_line_buffer w) (lbuf self)))
      with (use_readline self).
    change (dumb_terminal (set_lbufs self (rl_line_buffer w) (lbuf self)))
      with (dumb_terminal self).
    rewrite Hrl. cbv iota.
    assert (Hg : negb (dumb_terminal self || negb (is_blank (rl_line_buffer w))) = false).
    { destruct Hgate as [-> | ->]; [reflexivity|].
      destruct (dumb_terminal self); reflexivity. }
    rewrite Hg, complete_resets_lbufs, Hbatch. reflexivity. }
  change (seq 0 (S (List.length ms))) with (0 :: seq 1 (List.length ms)).
  simpl map. simpl IPCompleter.rl_session. rewrite H0.
  rewrite rl_session_later.
  2:{ apply Forall_forall. intros s Hs. apply in_map_iff in Hs.
      destruct Hs as (i & <- & Hi). apply in_seq in Hi. lia. }
  rewrite Hm, map_map.
  transitivity (map (fun o : option string => @Ok (option string) o)
                    (map (nth_error ms) (seq 0 (S (List.length ms))))).
  { simpl. f_equal. rewrite map_map. apply map_ext. intros i. rewrite getitem_of_nat.
    reflexivity. }
  assert (Hnone : nth_error ms (0 + List.length ms) = None) by (apply nth_error_None; lia).
  rewrite seq_S, !map_app. change (seq 0 (List.length ms))
    with (seq (List.length (@nil string)) (List.length ms)).
  change (nth_error ms) with (nth_error ([] ++ ms)).
  rewrite nth_error_seq, map_map. simpl app at 2. cbn [map]. simpl app at 2.
  rewrite Hnone. reflexivity.
Qed.

End Readline.

(** The amended C5 on the example runtime: the token [fo] on the line [fo]
    has the matches [foo] and [for]. *)
Lemma rlcomplete_serves_batch_matches_witness :
  IPCompleter.rl_session (Demo.world Demo.cwd "fo")
    (Demo.ip [("foo", Demo.foo)] [] true "" "") "fo" [0; 1; 2]%Z
  = [Ok (Some "foo"); Ok (Some "for"); Ok None].
Proof.
  apply (rlcomplete_serves_batch_matches (Demo.world Demo.cwd "fo")
           (Demo.ip [("foo", Demo.foo)] [] true "" "") "fo"
           (set_matches (Demo.ip [("foo", Demo.foo)] [] true "fo" "fo") ["foo"; "for"])
           (map CallMatcher IPCompleter.matchers) "fo" ["foo"; "for"]).
  - reflexivity.
  - right; reflexivity.
  - reflexivity.
Defined.

(** C5 fails: on a blank line and a terminal that is not dumb, the batch
    completion of the empty token yields matches, [%cd] first, while
    [rlcomplete] at state 0 inserts a tab and returns [None]. *)
Lemma rlcomplete_blank_line_returns_none :
  (exists ms,
      snd (IPCompleter.complete (Demo.world Demo.cwd "") (Demo.ip [] [] true "" "")
             (Some "") (Some "") (Some 0%Z))
      = Ok ("", "%cd" :: ms))
  /\ IPCompleter.rlcomplete (Demo.world Demo.cwd "") (Demo.ip [] [] true "" "") "" 0
     = (Demo.ip [] [] true "" "", [InsertTab], Ok None).
Proof. split; [eexists; reflexivity | reflexivity]. Qed.

(** ** The statements on the example runtime *)

(** C3 in merge mode, in first-match mode, and with a custom completer
    that answers [x2], [x1], [x2] for the command [foo]. *)
Lemma complete_matches_sorted_distinct_witness :
  (NoDup ["foo"; "for"] /\ PyStr.ascending ["foo"; "for"])
  /\ (NoDup ["foo"; "for"] /\ PyStr.ascending ["foo"; "for"])
  /\ (NoDup ["x1"; "x2"] /\ PyStr.ascending ["x1"; "x2"]).
Proof.
  split; [|split].
  - destruct (complete_matches_sorted_distinct (Demo.world Demo.cwd "fo")
                (Demo.ip [("foo", Demo.foo)] [] true "" "") (Some "fo") None None
                (set_matches (Demo.ip [("foo", Demo.foo)] [] true "fo" "fo") ["foo"; "for"])
                (map CallMatcher IPCompleter.matchers) "fo" ["foo"; "for"] eq_refl)
      as (_ & Hnd & Hasc & _).
    split; assumption.
  - destruct (complete_matches_sorted_distinct (Demo.world Demo.cwd "fo")
                (Demo.ip [("foo", Demo.foo)] [] false "" "") (Some "fo") None None
                (set_matches (Demo.ip [("foo", Demo.foo)] [] false "fo" "fo") ["foo"; "for"])
                [CallMatcher PythonMatches] "fo" ["foo"; "for"] eq_refl)
      as (_ & Hnd & Hasc & _).
    split; assumption.
  - destruct (complete_matches_sorted_distinct (Demo.world Demo.cwd "foo x")
                (Demo.ip [] [(Exact "foo", Demo.answering 1 ["x2"; "x1"; "x2"])] true "" "")
                None (Some "foo x") None
                (set_matches
                   (Demo.ip [] [(Exact "foo", Demo.answering 1 ["x2"; "x1"; "x2"])] true
                      "foo x" "foo x") ["x1"; "x2"])
                [CallCustom 1] "x" ["x1"; "x2"] eq_refl)
      as (_ & Hnd & Hasc & _).
    split; assumption.
Defined.

(** The amended C4 where the completer registered for [foo] answers with
    nothing that begins with the token: the empty list is the match set and
    no matcher is called. *)
Lemma custom_result_replaces_pipeline_witness :
  IPCompleter.complete (Demo.world Demo.cwd "foo x")
    (Demo.ip [] [(Exact "foo", Demo.answering 1 ["y"])] true "" "")
    None (Some "foo x") None
  = (Demo.ip [] [(Exact "foo", Demo.answering 1 ["y"])] true "foo x" "foo x",
     [CallCustom 1], Ok ("x", [])).
Proof.
  destruct (custom_result_replaces_pipeline (Demo.world Demo.cwd "foo x")
              (Demo.ip [] [(Exact "foo", Demo.answering 1 ["y"])] true "" "")
              None (Some "foo x") None
              (Demo.ip [] [(Exact "foo", Demo.answering 1 ["y"])] true "foo x" "foo x")
              "x" eq_refl)
    as (Hsome & _ & _).
  destruct (Hsome [] eq_refl) as [Hc _]. exact Hc.
Defined.

(** C4 fails in its last part: on a blank line the dispatch returns [None]
    although a flat pattern matches the buffer and its callback, which is
    never called, would have answered. *)
Lemma dispatch_none_on_blank_line_with_matching_callback :
  IPCompleter.dispatch_custom_completer
    (Demo.ip [] [(Flat (fun _ => true), Demo.answering 1 ["x"])] true "  " "  ") ""
  = ([], Ok None)
  /\ flat_matches [(Flat (fun _ => true), Demo.answering 1 ["x"])] "  "
     = [Demo.answering 1 ["x"]]
  /\ cb_run (Demo.answering 1 ["x"])
       {| ev_line := "  "; ev_symbol := ""; ev_command := "" |} = Ok ["x"]
  /\ ~ Forall (defers {| ev_line := "  "; ev_symbol := ""; ev_command := "" |})
         (flat_matches [(Flat (fun _ => true), Demo.answering 1 ["x"])] "  ").
Proof.
  repeat split; try reflexivity.
  intros H. inversion H as [|? ? Hd]. discriminate Hd.
Qed.

(** C10 on a line of two blanks, with a flat pattern that matches every
    buffer. *)
Lemma blank_line_skips_custom_completers_witness :
  IPCompleter.dispatch_custom_completer
    (Demo.ip [] [(Flat (fun _ => true), Demo.answering 1 ["x"])] true "  " "  ") ""
  = ([], Ok None)
  /\ exists calls,
       snd (fst (IPCompleter.complete (Demo.world Demo.cwd "  ")
                   (Demo.ip [] [(Flat (fun _ => true), Demo.answering 1 ["x"])] true "" "")
                   None (Some "  ") None))
       = CallMatcher PythonMatches :: calls
       /\ Forall is_matcher_call calls.
Proof.
  destruct (blank_line_skips_custom_completers (Demo.world Demo.cwd "  ")
              (Demo.ip [] [(Flat (fun _ => true), Demo.answering 1 ["x"])] true "" "")
              None (Some "  ") None)
    as [_ Hblank].
  exact (Hblank
           (Demo.ip [] [(Flat (fun _ => true), Demo.answering 1 ["x"])] true "  " "  ")
           "" eq_refl eq_refl).
Defined.

(** The amended C7: a completer registered for [%foo] is called on the
    buffer [foo x]. *)
Lemma magic_completer_fires_for_bare_command_witness :
  In (CallCustom 1)
     (fst (IPCompleter.dispatch_custom_completer
             (Demo.ip [] [(Exact "%foo", Demo.answering 1 ["x1"])] true "foo x" "foo x")
             "x")).
Proof.
  destruct (magic_completer_fires_for_bare_command
              (Demo.ip [] [(Exact "%foo", Demo.answering 1 ["x1"])] true "foo x" "foo x")
              "x" "foo" eq_refl)
    as [Hbare _].
  destruct (Hbare eq_refl (Demo.answering 1 ["x1"]) [] (Forall_nil _) eq_refl) as [Hin _].
  exact Hin.
Defined.

(** C7 fails: a completer registered for the bare command [foo], with none
    registered for [%foo], is not called on the buffer [%foo x]; the
    dispatch calls nothing and returns [None]. *)
Lemma bare_completer_not_tried_for_magic_form :
  s_matches [(Exact "foo", Demo.answering 1 ["x1"])] "foo" = [Demo.answering 1 ["x1"]]
  /\ s_matches [(Exact "foo", Demo.answering 1 ["x1"])] "%foo" = []
  /\ PyStr.first_word "%foo x" = Some "%foo"
  /\ IPCompleter.dispatch_custom_completer
       (Demo.ip [] [(Exact "foo", Demo.answering 1 ["x1"])] true "%foo x" "%foo x") "x"
     = ([], Ok None)
  /\ IPCompleter.dispatch_custom_completer
       (Demo.ip [] [(Exact "foo", Demo.answering 1 ["x1"])] true "foo x" "foo x") "x"
     = ([CallCustom 1], Ok (Some ["x1"])).
Proof. repeat split; reflexivity. Qed.

(** * Further properties of the module *)

(** ** [protect_filename] *)

Section ProtectFilename.
Context {Obj : Type} (w : World Obj).
Import PyStr PrefixFacts.

Lemma protect_filename_chars (s : string) :
  chars (protect_filename w s) = flat_map (escape_char w) (chars s).
Proof. unfold protect_filename. rewrite chars_str. reflexivity. Qed.

Lemma backslash_not_protectable : mem "\"%char (PROTECTABLES w) = false.
Proof. unfold PROTECTABLES. destruct (win32 w); reflexivity. Qed.

Lemma escape_fixed (l : list ascii) :
  flat_map (escape_char w) l = l
  <-> forallb (fun c => negb (mem c (PROTECTABLES w))) l = true.
Proof.
  induction l as [|c l IH]; simpl; [tauto|].
  unfold escape_char at 1. destruct (mem c (PROTECTABLES w)) eqn:E; simpl.
  - split; [|discriminate]. intros H. injection H as Hc _. subst c.
    rewrite backslash_not_protectable in E. discriminate.
  - rewrite <- IH. split; [intros H; injection H; auto | intros ->; reflexivity].
Qed.

(** X1: [protect_filename] returns its argument unchanged exactly when the
    argument holds no protectable character; this is the test by which
    [file_matches] decides that a name has protectables. *)
Theorem protect_filename_fixed_iff (s : string) :
  protect_filename w s = s
  <-> forallb (fun c => negb (mem c (PROTECTABLES w))) (chars s) = true.
Proof.
  rewrite <- escape_fixed, <- protect_filename_chars. split.
  - intros ->. reflexivity.
  - intros H. rewrite <- (str_chars (protect_filename w s)), H. apply str_chars.
Qed.

(** X2: protecting a concatenation is concatenating the protected parts, so
    a name can be protected piece by piece, as [file_matches] does when it
    splices the typed text in front of the protected remainder. *)
Theorem protect_filename_app (a b : string) :
  protect_filename w (a ++ b) = (protect_filename w a ++ protect_filename w b)%string.
Proof.
  unfold protect_filename. rewrite chars_app, flat_map_app, str_app. reflexivity.
Qed.

Lemma remove_escape (l : list ascii) :
  filter (fun d => negb (Ascii.eqb "\"%char d)) (flat_map (escape_char w) l)
  = filter (fun d => negb (Ascii.eqb "\"%char d)) l.
Proof.
  induction l as [|c l IH]; [reflexivity|].
  cbn [flat_map]. rewrite filter_app, IH. unfold escape_char.
  destruct (mem c (PROTECTABLES w)); cbn [filter app].
  - rewrite Ascii.eqb_refl. cbn [negb].
    destruct (negb (Ascii.eqb "\" c)); reflexivity.
  - destruct (negb (Ascii.eqb "\" c)); reflexivity.
Qed.

Lemma filter_all {A} (p : A -> bool) (l : list A) :
  forallb p l = true -> filter p l = l.
Proof.
  induction l as [|x l IH]; simpl; [reflexivity|].
  destruct (p x); simpl; [intros H; rewrite IH; auto | discriminate].
Qed.

(** X3: removing the backslashes, as [file_matches] does before it globs,
    undoes [protect_filename]: on any name the two give the name without its
    own backslashes, and a name without backslashes comes back unchanged. *)
Theorem protect_filename_unescape (s : string) :
  remove_char (protect_filename w s) "\"%char = remove_char s "\"%char
  /\ (contains s "\"%char = false ->
      remove_char (protect_filename w s) "\"%char = s).
Proof.
  assert (H : remove_char (protect_filename w s) "\"%char = remove_char s "\"%char).
  { unfold remove_char. rewrite protect_filename_chars, remove_escape. reflexivity. }
  split; [exact H|]. intros Hc. rewrite H. unfold remove_char.
  rewrite filter_all; [apply str_chars|].
  unfold contains, mem in Hc. revert Hc.
  generalize (chars s). intros l. induction l as [|c l IH]; [reflexivity|].
  cbn [existsb forallb]. destruct (Ascii.eqb "\" c); cbn [orb negb andb];
    [discriminate | exact IH].
Qed.

End ProtectFilename.

Lemma protect_filename_unescape_witness :
  PyStr.remove_char (protect_filename (Demo.world Demo.cwd "") "my file (1).txt") "\"%char
  = "my file (1).txt".
Proof.
  apply (protect_filename_unescape (Demo.world Demo.cwd "") "my file (1).txt").
  reflexivity.
Defined.

(** ** [CompletionSplitter.split_line] *)

Section Splitter.
Context {Obj : Type} (w : World Obj).
Import PyStr PrefixFacts.

Lemma last_piece_spec (sep : ascii -> bool) (l acc : list ascii) :
  forallb (fun c => negb (sep c)) acc = true ->
  forallb (fun c => negb (sep c)) (last_piece sep l acc) = true
  /\ (last_piece sep l acc = acc ++ l
      \/ exists pre c, sep c = true /\ l = pre ++ c :: last_piece sep l acc).
Proof.
  revert acc; induction l as [|c l IH]; intros acc Hacc; simpl.
  - split; [exact Hacc | left; symmetry; apply app_nil_r].
  - destruct (sep c) eqn:E.
    + destruct (IH [] eq_refl) as [Hn [Hw | (pre & c' & Hc' & Hl)]]; split; auto; right.
      * exists [], c. rewrite Hw. auto.
      * exists (c :: pre), c'. split; [exact Hc'|]. simpl. f_equal. exact Hl.
    + assert (Hacc' : forallb (fun c0 => negb (sep c0)) (acc ++ [c]) = true).
      { rewrite forallb_app, Hacc. simpl. rewrite E. reflexivity. }
      destruct (IH (acc ++ [c]) Hacc') as [Hn [Hw | (pre & c' & Hc' & Hl)]]; split; auto.
      * left. rewrite Hw, <- app_assoc. reflexivity.
      * right. exists (c :: pre), c'. split; [exact Hc'|]. simpl. f_equal. exact Hl.
Qed.

Lemma last_piece_clean (sep : ascii -> bool) (l : list ascii) :
  forallb (fun c => negb (sep c)) l = true -> last_piece sep l [] = l.
Proof.
  assert (H : forall l acc, forallb (fun c => negb (sep c)) l = true ->
                            last_piece sep l acc = acc ++ l).
  { clear l. induction l as [|c l IH]; intros acc; simpl.
    - intros _. symmetry. apply app_nil_r.
    - destruct (sep c); simpl; [discriminate|].
      intros Hl. rewrite (IH _ Hl), <- app_assoc. reflexivity. }
  apply (H l []).
Qed.

Lemma delimiter_literal (delims : string) (c : ascii) :
  forallb (fun d => negb (is_alnum d)) (chars delims) = true ->
  CompletionSplitter.delimiter w delims c = mem c delims.
Proof.
  unfold CompletionSplitter.delimiter, mem.
  induction (chars delims) as [|d l IH]; [reflexivity|].
  cbn [forallb existsb]. rewrite andb_true_iff, negb_true_iff. intros [Hd Hl].
  rewrite Hd, (IH Hl), (Ascii.eqb_sym d c). reflexivity.
Qed.

(** X4: the word [split_line] returns holds no character of the compiled
    delimiter class and ends the text before the cursor: it is that whole
    text, or what follows the last character of the class in it; and when no
    delimiter is a letter or a digit, as with the default delimiters, the
    class is made of the delimiters themselves. *)
Theorem split_line_word (delims line : string) (cursor_pos : option Z) :
  let word := CompletionSplitter.split_line w delims line cursor_pos in
  forallb (fun c => negb (CompletionSplitter.delimiter w delims c)) (chars word) = true
  /\ (word = split_input line cursor_pos
      \/ exists pre c,
           CompletionSplitter.delimiter w delims c = true
           /\ split_input line cursor_pos = (pre ++ String c word)%string)
  /\ (forallb (fun d => negb (is_alnum d)) (chars delims) = true ->
      forall c, CompletionSplitter.delimiter w delims c = mem c delims).
Proof.
  unfold CompletionSplitter.split_line, split_last.
  fold (split_input line cursor_pos).
  remember (last_piece (CompletionSplitter.delimiter w delims)
              (chars (split_input line cursor_pos)) [])
    as wd eqn:Ew.
  destruct (last_piece_spec (CompletionSplitter.delimiter w delims)
              (chars (split_input line cursor_pos)) [] eq_refl)
    as [Hn [Hw | (pre & c & Hc & Hl)]];
    rewrite <- Ew in *; clear Ew; simpl; rewrite chars_str;
    (split; [exact Hn|]);
    (split; [|intros Hd c0; apply delimiter_literal; exact Hd]).
  - left. rewrite Hw. apply str_chars.
  - right. exists (str pre), c. split; [exact Hc|].
    rewrite <- (str_chars (split_input line cursor_pos)), Hl, str_app. reflexivity.
Qed.

(** X5: splitting is idempotent: the word returned, split again as a whole
    line, is returned as it is. *)
Theorem split_line_idempotent (delims line : string) (cursor_pos : option Z) :
  CompletionSplitter.split_line w delims
    (CompletionSplitter.split_line w delims line cursor_pos) None
  = CompletionSplitter.split_line w delims line cursor_pos.
Proof.
  unfold CompletionSplitter.split_line at 1. unfold split_last.
  rewrite last_piece_clean; [apply str_chars|].
  unfold CompletionSplitter.split_line, split_last. rewrite chars_str.
  apply (last_piece_spec (CompletionSplitter.delimiter w delims)). reflexivity.
Qed.

End Splitter.

(** ** [global_matches], [alias_matches], [magic_matches], [python_matches] *)

Section NameMatchers.
Context {Obj : Type} (w : World Obj).
Import PyStr PrefixFacts.

Lemma global_matches_filter (self : completer Obj) (text : string) :
  Completer.global_matches w self text
  = filter (fun word => startswith word text && negb (String.eqb word "__builtins__"))
           (visible_names w self).
Proof.
  unfold Completer.global_matches, visible_names. cbn [flat_map].
  rewrite app_nil_r, !filter_app. reflexivity.
Qed.

Lemma startswith_shorter (c t u : string) :
  startswith c (t ++ u) = true -> startswith c t = true.
Proof.
  rewrite !startswith_iff. intros [r ->]. exists (u ++ r)%string. apply app_assoc_str.
Qed.

(** X6: [global_matches] returns exactly the visible names (keywords,
    built-ins, keys of the two namespaces) that begin with the text, the
    name [__builtins__] excepted, which is never returned. *)
Theorem global_matches_characterised (self : completer Obj) (text c : string) :
  In c (Completer.global_matches w self text)
  <-> In c (visible_names w self)
      /\ startswith c text = true
      /\ c <> "__builtins__"%string.
Proof.
  rewrite global_matches_filter, filter_In, andb_true_iff, negb_true_iff, String.eqb_neq.
  tauto.
Qed.

(** X7: typing on narrows the matches: the matches of a longer text are
    those matches of the shorter text that begin with the longer one, in the
    same order. *)
Theorem global_matches_narrow (self : completer Obj) (text more : string) :
  Completer.global_matches w self (text ++ more)
  = filter (fun word => startswith word (text ++ more))
           (Completer.global_matches w self text).
Proof.
  rewrite !global_matches_filter.
  induction (visible_names w self) as [|x l IH]; simpl; [reflexivity|].
  destruct (startswith x (text ++ more)) eqn:E.
  - rewrite (startswith_shorter _ _ _ E). simpl.
    destruct (negb (String.eqb x "__builtins__")); simpl; [rewrite E|]; congruence.
  - simpl. destruct (startswith x text && negb (String.eqb x "__builtins__"));
      simpl; [rewrite E|]; exact IH.
Qed.

Lemma filter_true {A} (l : list A) : filter (fun _ => true) l = l.
Proof. induction l; simpl; congruence. Qed.

Lemma lstrip_kept (l : list ascii) :
  match l with [] => True | c :: _ => is_space c = false end ->
  dropwhile is_space l = l.
Proof. destruct l as [|c l]; simpl; [reflexivity | intros ->; reflexivity]. Qed.

(** X8: [alias_matches] offers nothing when the buffer, its leading blanks
    apart, holds a space and does not begin with [sudo]; otherwise it offers
    the aliases that begin with the home-expanded text, in the order of the
    table, the empty text being no special case; and a buffer that begins
    with [sudo] is never refused. *)
Theorem alias_matches_gate (self : completer Obj) (text : string) :
  IPCompleter.alias_matches w self text
  = (if contains (lstrip (lbuf self)) " "%char
        && negb (startswith (lstrip (lbuf self)) "sudo")
     then []
     else filter (fun alias => startswith alias (expanduser w text)) (alias_table self))
  /\ (forall rest,
        lbuf self = ("sudo" ++ rest)%string ->
        IPCompleter.alias_matches w self text
        = filter (fun alias => startswith alias (expanduser w text)) (alias_table self)).
Proof.
  assert (H : IPCompleter.alias_matches w self text
              = (if contains (lstrip (lbuf self)) " "%char
                    && negb (startswith (lstrip (lbuf self)) "sudo")
                 then []
                 else filter (fun alias => startswith alias (expanduser w text))
                             (alias_table self))).
  { unfold IPCompleter.alias_matches.
    destruct (_ && _); [reflexivity|].
    destruct (String.eqb (expanduser w text) "") eqn:E; [|reflexivity].
    apply String.eqb_eq in E. rewrite E.
    rewrite (filter_ext _ (fun _ => true)); [symmetry; apply filter_true|].
    intros a. apply startswith_empty. }
  split; [exact H|].
  intros rest Hl. rewrite H, Hl.
  assert (Hs : lstrip ("sudo" ++ rest) = ("sudo" ++ rest)%string).
  { unfold lstrip. rewrite chars_app. simpl. rewrite str_chars. reflexivity. }
  rewrite Hs, startswith_app. simpl. rewrite andb_false_r. reflexivity.
Qed.

Lemma dropwhile_app_all (p : ascii -> bool) (a b : list ascii) :
  forallb p a = true -> dropwhile p (a ++ b) = dropwhile p b.
Proof.
  induction a as [|c a IH]; simpl; [reflexivity|].
  destruct (p c); simpl; [exact IH | discriminate].
Qed.

(** X9: leading escape characters do not change the magics offered: a token
    with any number of them in front completes like the bare token. *)
Theorem magic_matches_ignores_escapes (self : completer Obj) (pre text : string) :
  forallb (fun c => mem c (magic_escape self)) (chars pre) = true ->
  IPCompleter.magic_matches w self (pre ++ text) = IPCompleter.magic_matches w self text.
Proof.
  intros Hpre. unfold IPCompleter.magic_matches, lstrip_chars.
  rewrite chars_app, (dropwhile_app_all _ _ _ Hpre). reflexivity.
Qed.

Lemma strip_prefix_shorter (p q l r : list ascii) :
  strip_prefix (p ++ q) l = Some r -> exists r', strip_prefix p l = Some r'.
Proof.
  revert l; induction p as [|a p IH]; intros l; simpl; [eauto|].
  destruct l as [|b l]; [discriminate|].
  destruct (Ascii.eqb a b); [apply IH | discriminate].
Qed.

Lemma after_first_shorter (p q l r : list ascii) :
  after_first (p ++ q) l = Some r -> exists r', after_first p l = Some r'.
Proof.
  induction l as [|c l IH]; simpl.
  - destruct (strip_prefix (p ++ q) []) eqn:E; [|discriminate].
    intros _. destruct (strip_prefix_shorter _ _ _ _ E) as [r' ->]. eauto.
  - destruct (strip_prefix (p ++ q) (c :: l)) eqn:E.
    + intros _. destruct (strip_prefix_shorter _ _ _ _ E) as [r' ->]. eauto.
    + intros H. destruct (IH H) as [r' Hr'].
      destruct (strip_prefix p (c :: l)); eauto.
Qed.

Lemma no_underscore_no_dunder (txt : string) :
  IPCompleter.no_underscore_name txt = true -> IPCompleter.no_dunder_name txt = true.
Proof.
  unfold IPCompleter.no_underscore_name, IPCompleter.no_dunder_name.
  destruct (after_first (chars ".__") (IPCompleter.first_line txt)) as [r|] eqn:E;
    [|reflexivity].
  change (chars ".__") with (chars "._" ++ chars "_") in E.
  destruct (after_first_shorter _ _ _ _ E) as [r' ->]. discriminate.
Qed.

Lemma global_matches_same (a b : completer Obj) (text : string) :
  namespace a = namespace b -> global_namespace a = global_namespace b ->
  Completer.global_matches w a text = Completer.global_matches w b text.
Proof. intros Hn Hg. unfold Completer.global_matches. rewrite Hn, Hg. reflexivity. Qed.

Lemma attr_matches_same (a b : completer Obj) (text : string) :
  namespace a = namespace b -> global_namespace a = global_namespace b ->
  Completer.attr_matches w a text = Completer.attr_matches w b text.
Proof. intros Hn Hg. unfold Completer.attr_matches. rewrite Hn, Hg. reflexivity. Qed.

(** X10: the settings of [omit__names] are nested: on the same namespaces,
    what [python_matches] returns under a setting above 1 (no name with a
    leading underscore) is part of what it returns under setting 1 (no
    double-underscore name), which is part of what it returns with the
    filter off. *)
Theorem python_matches_omit_nested (off dunder under : completer Obj) (text : string) l :
  namespace dunder = namespace off -> global_namespace dunder = global_namespace off ->
  namespace under = namespace off -> global_namespace under = global_namespace off ->
  omit__names off = 0 -> omit__names dunder = 1 -> 1 < omit__names under ->
  IPCompleter.python_matches w under text = Ok l ->
  exists l1 l0,
    IPCompleter.python_matches w dunder text = Ok l1
    /\ IPCompleter.python_matches w off text = Ok l0
    /\ incl l l1 /\ incl l1 l0.
Proof.
  intros Hn1 Hg1 Hn2 Hg2 H0 H1 H2.
  unfold IPCompleter.python_matches.
  rewrite (global_matches_same dunder off), (global_matches_same under off) by assumption.
  rewrite (attr_matches_same dunder off), (attr_matches_same under off) by assumption.
  rewrite H0, H1.
  destruct (omit__names under =? 0)%nat eqn:E0; [apply Nat.eqb_eq in E0; lia|].
  destruct (omit__names under =? 1)%nat eqn:E1; [apply Nat.eqb_eq in E1; lia|].
  destruct (contains text ".").
  - destruct (Completer.attr_matches w off text) as [m|e].
    + rewrite andb_false_r. simpl negb. rewrite andb_true_r.
      destruct (IPCompleter.endswith_dot text); simpl; intros H; injection H as <-.
      * exists (filter IPCompleter.no_dunder_name m), m. repeat split.
        -- intros x Hx. apply filter_In in Hx. apply filter_In.
           split; [tauto | apply no_underscore_no_dunder; tauto].
        -- intros x Hx. apply filter_In in Hx. tauto.
      * exists m, m. repeat split; apply incl_refl.
    + destruct e; try discriminate.
      intros H; injection H as <-. exists [], []. repeat split; apply incl_refl.
  - intros H. injection H as <-. eexists; eexists. repeat split; apply incl_refl.
Qed.

End NameMatchers.

(** ** [single_dir_expand] *)

Section SingleDirExpand.
Context {Obj : Type} (w : World Obj) (listdir : string -> result (list string)).
Import PyStr PrefixFacts.

(** A match list that is not a single directory is returned as it is. *)
Lemma single_dir_expand_unchanged_aux (depth : nat) (matches : list string) :
  (forall d, matches = [d] -> isdir w d = false) ->
  single_dir_expand w listdir (S depth) matches = Ok matches.
Proof.
  intros H. simpl. destruct matches as [|d [|d' rest]]; try reflexivity.
  rewrite (H d eq_refl). reflexivity.
Qed.

(** X11: expansion never loses the matches: whenever it returns, on a list
    that is not empty, the list it returns is not empty either (an empty
    directory is kept as the match rather than replaced by its empty
    listing). *)
Theorem single_dir_expand_nonempty (depth : nat) (matches result : list string) :
  matches <> [] ->
  single_dir_expand w listdir depth matches = Ok result ->
  result <> [].
Proof.
  revert matches; induction depth as [|depth IH]; intros matches Hne; simpl;
    [discriminate|].
  destruct matches as [|d0 [|d' rest]]; [contradiction| |].
  - destruct (isdir w d0); [|intros H; injection H as <-; exact Hne].
    destruct (rev (chars d0)) as [|c r]; [discriminate|].
    destruct (listdir _) as [[|p subdirs]|e]; [| |discriminate].
    + intros H; injection H as <-; exact Hne.
    + apply IH. discriminate.
  - intros H; injection H as <-; exact Hne.
Qed.

Lemma single_dir_expand_single (depth : nat) (d0 : string) :
  single_dir_expand w listdir (S depth) [d0]
  = if isdir w d0 then
      match rev (chars d0) with
      | [] => Raise IndexError
      | c :: r =>
          let d := if Ascii.eqb c "/"%char || Ascii.eqb c "\"%char
                   then str (rev r) else d0 in
          match listdir d with
          | Raise e => Raise e
          | Ok [] => Ok [d0]
          | Ok subdirs =>
              single_dir_expand w listdir depth
                (map (fun p => (d ++ "/" ++ p)%string) subdirs)
          end
      end
    else Ok [d0].
Proof. reflexivity. Qed.

(** X12: a directory whose listing holds a plain file or several entries is
    replaced by its entries, each written as the directory, a slash and the
    entry, one final slash or backslash of the directory name being dropped
    first. *)
Theorem single_dir_expand_one_level (depth : nat) (d p : string) (subdirs : list string) :
  isdir w d = true ->
  d <> ""%string ->
  listdir (trim_separator d) = Ok (p :: subdirs) ->
  (subdirs = [] -> isdir w (trim_separator d ++ "/" ++ p) = false) ->
  single_dir_expand w listdir (S (S depth)) [d]
  = Ok (map (fun q => (trim_separator d ++ "/" ++ q)%string) (p :: subdirs)).
Proof.
  intros Hd Hne Hls Hfile.
  rewrite single_dir_expand_single.
  rewrite Hd. unfold trim_separator in *.
  destruct (rev (chars d)) as [|c r] eqn:E.
  - exfalso. apply Hne. rewrite <- (str_chars d), <- (rev_involutive (chars d)), E.
    reflexivity.
  - rewrite Hls. apply single_dir_expand_unchanged_aux.
    intros x Hx. destruct subdirs; [|discriminate]. injection Hx as <-.
    apply Hfile. reflexivity.
Qed.

End SingleDirExpand.

(** ** Requests and custom completers *)

Section Requests.
Context {Obj : Type} (w : World Obj).
Import PyStr PrefixFacts.

Lemma substring_prefix (s : string) (n : nat) :
  startswith s (String.substring 0 n s) = true.
Proof.
  apply startswith_iff. revert n; induction s as [|c s IH]; intros [|n]; simpl;
    try (eexists; reflexivity).
  destruct (IH n) as [r Hr]. exists r. congruence.
Qed.

Lemma slice_to_prefix (s : string) (n : Z) : startswith s (slice_to s n) = true.
Proof. unfold slice_to. destruct (0 <=? n)%Z; apply substring_prefix. Qed.

(** X13: the object [complete] hands to the custom completers and to the
    matchers has no match left from an earlier request, and its buffer up to
    the cursor begins its full line buffer, whatever the cursor position,
    the negative ones included; a text that is given, not empty and without
    a leading tilde is the token, unchanged. *)
Theorem prepare_invariants
  (self : completer Obj) text line_buffer cursor_pos self0 tok :
  IPCompleter.prepare w self text line_buffer cursor_pos = Ok (self0, tok) ->
  matches self0 = []
  /\ startswith (full_lbuf self0) (lbuf self0) = true
  /\ (forall t, text = Some t -> t <> ""%string -> startswith t "~" = false -> tok = t).
Proof.
  unfold IPCompleter.prepare.
  destruct (IPCompleter.resolve_request w self text line_buffer cursor_pos)
    as [[[t lb] cp]|e] eqn:E; [|discriminate].
  intros H. injection H as <- <-. simpl.
  split; [reflexivity|]. split; [apply slice_to_prefix|].
  intros t' -> Hne Ht. unfold IPCompleter.resolve_request in E.
  assert (Heq : String.eqb t' "" = false) by (apply String.eqb_neq; exact Hne).
  rewrite Heq in E.
  destruct cursor_pos; simpl in E; injection E as <- _ _; rewrite Ht; reflexivity.
Qed.

(** X14: a request is computed from scratch: the matches and the line
    buffers an earlier request left in the object change neither the calls
    nor the result of [complete]. *)
Theorem complete_forgets_previous_request
  (self : completer Obj) (old_matches : list string) (old_full old_part : string)
  text line_buffer cursor_pos :
  let stale := set_matches (set_lbufs self old_full old_part) old_matches in
  snd (fst (IPCompleter.complete w stale text line_buffer cursor_pos))
  = snd (fst (IPCompleter.complete w self text line_buffer cursor_pos))
  /\ snd (IPCompleter.complete w stale text line_buffer cursor_pos)
     = snd (IPCompleter.complete w self text line_buffer cursor_pos).
Proof.
  intros stale. unfold IPCompleter.complete, IPCompleter.prepare.
  change (IPCompleter.resolve_request w stale text line_buffer cursor_pos)
    with (IPCompleter.resolve_request w self text line_buffer cursor_pos).
  destruct (IPCompleter.resolve_request w self text line_buffer cursor_pos)
    as [[[t lb] cp]|e]; split; reflexivity.
Qed.

(** X15: the first callback of the chain that does not defer decides: when
    the callbacks before [c] defer and [c] answers, every one of them and
    [c] are called, in order, the callbacks behind [c] are not, and the
    candidates are those of [c] that begin with the text, or, if there is
    none, those that begin with it when case is ignored; when [c] raises
    another exception than [TryNext], that exception leaves
    [dispatch_custom_completer]. *)
Theorem dispatch_first_answer_decides
  (self : completer Obj) text cmd pre c rest :
  first_word (full_lbuf self) = Some cmd ->
  IPCompleter.completer_chain self cmd = pre ++ c :: rest ->
  Forall (defers {| ev_line := full_lbuf self; ev_symbol := text; ev_command := cmd |}) pre ->
  (forall res,
      cb_run c {| ev_line := full_lbuf self; ev_symbol := text; ev_command := cmd |}
      = Ok res ->
      IPCompleter.dispatch_custom_completer self text
      = (map (fun k => CallCustom (cb_id k)) (pre ++ [c]),
         Ok (Some (match filter (fun r => startswith r text) res with
                   | [] => filter (fun r => startswith (lower r) (lower text)) res
                   | withcase => withcase
                   end))))
  /\ (forall e,
         cb_run c {| ev_line := full_lbuf self; ev_symbol := text; ev_command := cmd |}
         = Raise e ->
         e <> TryNext ->
         IPCompleter.dispatch_custom_completer self text
         = (map (fun k => CallCustom (cb_id k)) (pre ++ [c]), Raise e)).
Proof.
  intros Hw Hchain Hpre. unfold IPCompleter.dispatch_custom_completer.
  rewrite Hw, Hchain. clear Hw Hchain.
  induction Hpre as [|d pre Hd Hpre [IHok IHraise]]; simpl.
  - split.
    + intros res ->. destruct (filter _ res); reflexivity.
    + intros e -> Hne. destruct e; try reflexivity. contradiction.
  - unfold defers in Hd. rewrite Hd. split.
    + intros res Hres. rewrite (IHok res Hres). reflexivity.
    + intros e He Hne. rewrite (IHraise e He Hne). reflexivity.
Qed.

Lemma try_completers_exact_or_none cs ev text calls res :
  IPCompleter.try_completers cs ev text = (calls, Ok (Some res)) ->
  (exists r, In r res /\ startswith r text = true) ->
  forall r, In r res -> startswith r text = true.
Proof.
  revert calls; induction cs as [|k cs IH]; intros calls; simpl; [discriminate|].
  destruct (cb_run k ev) as [r0|e].
  - destruct (filter (fun r => startswith r text) r0) as [|x xs] eqn:E.
    + intros H; injection H as _ <-. intros (r & Hr & Hs). exfalso.
      apply filter_In in Hr.
      assert (Hin : In r (filter (fun r => startswith r text) r0))
        by (apply filter_In; tauto).
      rewrite E in Hin. exact Hin.
    + intros H; injection H as _ <-. intros _ r Hr. rewrite <- E in Hr.
      apply filter_In in Hr. tauto.
  - destruct e; try discriminate.
    destruct (IPCompleter.try_completers cs ev text) as [calls' r'].
    intros H; injection H as _ ->. eauto.
Qed.

(** X16: candidates that match only when case is ignored are never mixed
    with candidates that match exactly: if one candidate returned by
    [dispatch_custom_completer] begins with the text, all of them do. *)
Theorem dispatch_case_sensitive_first (self : completer Obj) text res :
  snd (IPCompleter.dispatch_custom_completer self text) = Ok (Some res) ->
  (exists r, In r res /\ startswith r text = true) ->
  forall r, In r res -> startswith r text = true.
Proof.
  unfold IPCompleter.dispatch_custom_completer.
  destruct (first_word (full_lbuf self)) as [cmd|]; [|discriminate].
  destruct (IPCompleter.try_completers _ _ text) as [calls r0] eqn:E. simpl.
  intros ->. eapply try_completers_exact_or_none; eauto.
Qed.

End Requests.

(** ** [file_matches] *)

Section FileMatches.
Context {Obj : Type} (w : World Obj).
Import PyStr PrefixFacts.



Lemma mark_dirs_prefix (l : list string) (p c : string) :
  (forall x, In x l -> startswith x p = true) ->
  In c (mark_dirs w l) -> startswith c p = true.
Proof.
  intros Hl Hc. unfold mark_dirs in Hc. rewrite mark_dirs_loop_map in Hc.
  simpl in Hc. apply in_map_iff in Hc. destruct Hc as (x & <- & Hx).
  specialize (Hl x Hx). destruct (isdir w x); [|exact Hl].
  apply startswith_iff in Hl. destruct Hl as [r ->].
  apply startswith_iff. exists (r ++ "/")%string. apply app_assoc_str.
Qed.

Lemma protect_empty : protect_filename w "" = ""%string.
Proof. reflexivity. Qed.


(** X18: when the buffer lexes as a shell line, the exclamation mark of a
    token that begins with one is put back: every candidate begins with
    it. *)
Theorem file_matches_restores_bang
  (self : completer Obj) (text : string) (toks : list string) (c : string) :
  shlex_split w (lbuf self) = Some toks ->
  startswith text "!" = true ->
  In c (IPCompleter.file_matches w self text) ->
  startswith c "!" = true.
Proof.
  intros Hs Hb. unfold IPCompleter.file_matches, IPCompleter.last_shell_token.
  rewrite Hb, Hs.
  assert (Hcase : exists lsplit,
             match toks with [] => Some (false, ""%string)
                        | _ :: _ => Some (false, last toks ""%string) end
             = Some (false, lsplit)) by (destruct toks; eauto).
  destruct Hcase as [lsplit ->].
  destruct (String.eqb _ ""); [|apply mark_dirs_prefix].
  - intros Hc. apply in_map_iff in Hc. destruct Hc as (f & <- & _).
    apply startswith_app.
  - intros x Hx.
    destruct (negb (String.eqb lsplit (protect_filename w lsplit)));
      apply in_map_iff in Hx; destruct Hx as (f & <- & _); apply startswith_app.
Qed.

End FileMatches.

(** ** [python_func_kw_matches] and [_default_arguments] *)

Section CallArguments.
Context {Obj : Type} (w : World Obj).
Import PyStr PrefixFacts.

Lemma token_at_head (l t : list ascii) :
  IPCompleter.token_at l = Some t -> exists c r r', l = c :: r /\ t = c :: r'.
Proof.
  unfold IPCompleter.token_at. destruct l as [|c r]; [discriminate|].
  destruct (Ascii.eqb c "'" || Ascii.eqb c "034").
  - destruct (IPCompleter.through_quote c r) as [q|].
    + intros H; injection H as <-. eauto.
    + destruct (is_word c) eqn:E.
      * simpl. rewrite E. intros H; injection H as <-. eauto.
      * destruct (is_space c); [discriminate|]. intros H; injection H as <-. eauto.
  - destruct (is_word c) eqn:E.
    + simpl. rewrite E. intros H; injection H as <-. eauto.
    + destruct (is_space c); [discriminate|]. intros H; injection H as <-. eauto.
Qed.

Lemma str_single (t : list ascii) (c : ascii) : str t = String c "" -> t = [c].
Proof. intros H. rewrite <- (chars_str t), H. reflexivity. Qed.

Lemma findall_paren (skip : nat) (l : list ascii) :
  In "("%string (IPCompleter.findall skip l) -> In "("%char l.
Proof.
  revert skip; induction l as [|c l IH]; intros skip; [intros []|].
  cbn [IPCompleter.findall]. destruct skip as [|k].
  - destruct (IPCompleter.token_at (c :: l)) as [t|] eqn:E.
    + intros [H|H]; [|right; eapply IH; exact H].
      apply str_single in H. subst t.
      destruct (token_at_head _ _ E) as (c' & r & r' & Hl & Ht).
      injection Hl as <- _. injection Ht as <- _. left; reflexivity.
    + intros H. right. eapply IH; exact H.
  - intros H. right. eapply IH; exact H.
Qed.

Lemma find_unclosed_needs_paren (toks : list string) (openPar : Z) :
  ~ In "("%string toks -> IPCompleter.find_unclosed toks openPar = None.
Proof.
  revert openPar; induction toks as [|t toks IH]; intros openPar Hn; simpl;
    [reflexivity|].
  assert (Ht : String.eqb t "(" = false).
  { apply String.eqb_neq. intros ->. apply Hn. left; reflexivity. }
  rewrite Ht. destruct (String.eqb t ")"); apply IH; intros H; apply Hn; right; exact H.
Qed.

(** X19: outside a call nothing is offered: when the line buffer holds no
    opening parenthesis, [python_func_kw_matches] returns the empty list. *)
Theorem python_func_kw_matches_needs_paren (self : completer Obj) (text buf : string) :
  IPCompleter.get_line_buffer w self = Ok buf ->
  contains buf "("%char = false ->
  IPCompleter.python_func_kw_matches w self text = Ok [].
Proof.
  intros Hbuf Hp. unfold IPCompleter.python_func_kw_matches.
  destruct (contains text "."); [reflexivity|]. rewrite Hbuf.
  rewrite find_unclosed_needs_paren; [reflexivity|].
  rewrite <- in_rev. intros H. apply findall_paren in H.
  unfold contains, mem in Hp.
  assert (Hex : existsb (Ascii.eqb "(") (chars buf) = true)
    by (apply existsb_exists; exists "("%char; split; [exact H | reflexivity]).
  congruence.
Qed.

Lemma lastn_suffix {A} (d : nat) (l : list A) :
  exists pre, l = pre ++ lastn d l /\ List.length (lastn d l) <= d.
Proof.
  unfold lastn. exists (firstn (List.length l - d) l). split.
  - symmetry. apply firstn_skipn.
  - rewrite length_skipn. lia.
Qed.

(** X20: [_default_arguments] never raises [TypeError], and the names it
    returns, when there are any, are the last parameters of the callable it
    inspects for the object (the object itself, the [__init__] or [__new__]
    of a class, or the [__call__] of another object): as many of them as
    that callable has defaults. *)
Theorem default_arguments_are_trailing (obj : Obj) :
  IPCompleter._default_arguments w obj <> Raise TypeError
  /\ (forall names,
         IPCompleter._default_arguments w obj = Ok names ->
         names <> [] ->
         exists f args defaults pre,
           inspected_callable w obj = Some f
           /\ getargspec w f = Ok (args, defaults)
           /\ args = pre ++ names
           /\ List.length names = Nat.min defaults (List.length args)).
Proof.
  unfold IPCompleter._default_arguments, inspected_callable.
  destruct (isfunction w obj || ismethod w obj); cbn [negb].
  - destruct (getargspec w obj) as [[args d]|e] eqn:E.
    + destruct (d =? 0)%nat; split; try discriminate.
      * intros names H; injection H as <-. contradiction.
      * intros names H _; injection H as <-.
        destruct (lastn_suffix d args) as (pre & Hpre & Hlen).
        exists obj, args, d, pre. repeat split; auto.
        unfold lastn. rewrite length_skipn. lia.
    + destruct e; split; try discriminate; try congruence;
        intros names H; injection H as <-; contradiction.
  - set (target := if isclass w obj then _ else _).
    destruct target as [f|];
      [|split; [discriminate | intros names H; injection H as <-; contradiction]].
    destruct (getargspec w f) as [[args d]|e] eqn:E.
    + destruct (d =? 0)%nat; split; try discriminate.
      * intros names H; injection H as <-. contradiction.
      * intros names H _; injection H as <-.
        destruct (lastn_suffix d args) as (pre & Hpre & Hlen).
        exists f, args, d, pre. repeat split; auto.
        unfold lastn. rewrite length_skipn. lia.
    + destruct e; split; try discriminate; try congruence;
        intros names H; injection H as <-; contradiction.
Qed.

End CallArguments.

(** ** The protocol of the base class *)

Section BaseClass.
Context {Obj : Type} (w : World Obj).
Import PyStr PrefixFacts.

(** the object [Completer.complete] works on: bound to [__main__.__dict__]
    when the completer was set up without a namespace *)
Lemma base_complete_first (main_dict : list (string * Obj)) (self : completer Obj)
  (text : string) (ms : list string) :
  computed_matches w (rebound main_dict self) text = Ok ms ->
  Completer.complete w main_dict self text 0
  = (set_matches (rebound main_dict self) ms, Ok (getitem ms 0)).
Proof.
  unfold computed_matches, Completer.complete. fold (rebound main_dict self).
  simpl Z.eqb. cbv iota. destruct (contains text ".").
  - intros ->. reflexivity.
  - intros H. injection H as <-. reflexivity.
Qed.

Lemma base_session_later (main_dict : list (string * Obj)) (self : completer Obj)
  (text : string) (states : list Z) :
  Forall (fun s => s <> 0%Z) states ->
  Completer.session w main_dict self text states
  = map (fun s => Ok (getitem (matches self) s)) states.
Proof.
  intros H. revert self. induction H as [|s states Hs _ IH]; intros self; simpl;
    [reflexivity|].
  unfold Completer.complete. fold (rebound main_dict self).
  destruct (Z.eqb_spec s 0); [contradiction|]. simpl.
  rewrite IH. unfold rebound. destruct (use_main_ns self); reflexivity.
Qed.

(** X21: the protocol of [Completer.complete]: when the matches computed at
    state 0 (attributes for a text with a dot, global names otherwise) are
    [ms], asking for the states 0, 1, ..., k in turn, k being their number,
    returns them in their order and then [None]. *)
Theorem base_complete_serves_matches (main_dict : list (string * Obj))
  (self : completer Obj) (text : string) (ms : list string) :
  computed_matches w (rebound main_dict self) text = Ok ms ->
  Completer.session w main_dict self text (map Z.of_nat (seq 0 (S (List.length ms))))
  = map (fun c => Ok (Some c)) ms ++ [Ok None].
Proof.
  intros Hms.
  change (seq 0 (S (List.length ms))) with (0 :: seq 1 (List.length ms)).
  simpl map. simpl Completer.session.
  rewrite (base_complete_first _ _ _ _ Hms), base_session_later.
  2:{ apply Forall_forall. intros s Hs. apply in_map_iff in Hs.
      destruct Hs as (i & <- & Hi). apply in_seq in Hi. lia. }
  simpl matches. rewrite map_map.
  transitivity (map (fun o : option string => @Ok (option string) o)
                    (map (nth_error ms) (seq 0 (S (List.length ms))))).
  { simpl. f_equal. rewrite map_map. apply map_ext. intros i. rewrite getitem_of_nat.
    reflexivity. }
  assert (Hnone : nth_error ms (0 + List.length ms) = None) by (apply nth_error_None; lia).
  rewrite seq_S, !map_app. change (seq 0 (List.length ms))
    with (seq (List.length (@nil string)) (List.length ms)).
  change (nth_error ms) with (nth_error ([] ++ ms)).
  rewrite nth_error_seq, map_map. simpl app at 2. cbn [map]. simpl app at 2.
  rewrite Hnone. reflexivity.
Qed.

Lemma computed_matches_same (a b : completer Obj) (text : string) :
  namespace a = namespace b -> global_namespace a = global_namespace b ->
  computed_matches w a text = computed_matches w b text.
Proof.
  intros Hn Hg. unfold computed_matches, Completer.attr_matches, Completer.global_matches.
  rewrite Hn, Hg. reflexivity.
Qed.

Lemma base_complete_value (main_dict : list (string * Obj)) (self : completer Obj)
  (text : string) (state : Z) :
  snd (Completer.complete w main_dict self text state)
  = (if (state =? 0)%Z
     then match computed_matches w (rebound main_dict self) text with
          | Ok ms => Ok (getitem ms state)
          | Raise e => Raise e
          end
     else Ok (getitem (matches self) state))
  /\ matches (fst (Completer.complete w main_dict self text state))
     = (if (state =? 0)%Z
        then match computed_matches w (rebound main_dict self) text with
             | Ok ms => ms
             | Raise e => matches self
             end
        else matches self)
  /\ namespace (fst (Completer.complete w main_dict self text state))
     = namespace (rebound main_dict self)
  /\ global_namespace (fst (Completer.complete w main_dict self text state))
     = global_namespace self
  /\ use_main_ns (fst (Completer.complete w main_dict self text state))
     = use_main_ns self.
Proof.
  unfold Completer.complete, computed_matches. fold (rebound main_dict self).
  assert (Hm : matches (rebound main_dict self) = matches self)
    by (unfold rebound; destruct (use_main_ns self); reflexivity).
  assert (Hg : global_namespace (rebound main_dict self) = global_namespace self)
    by (unfold rebound; destruct (use_main_ns self); reflexivity).
  assert (Hu : use_main_ns (rebound main_dict self) = use_main_ns self)
    by (unfold rebound; destruct (use_main_ns self) eqn:E; simpl; congruence).
  destruct (state =? 0)%Z.
  - destruct (contains text ".").
    + destruct (Completer.attr_matches w (rebound main_dict self) text); simpl;
        repeat split; auto.
    + simpl. repeat split; auto.
  - simpl. repeat split; auto. rewrite Hm. reflexivity.
Qed.

(** X22: the namespace is bound at completion time: a completer set up
    without a namespace answers every sequence of calls as a completer set
    up with [__main__.__dict__] as it is when the calls are made, whatever
    the attribute [namespace] held before. *)
Theorem base_complete_binds_main_late (main_dict : list (string * Obj))
  (self : completer Obj) (global_namespace' : option (list (string * Obj)))
  (text : string) (states : list Z) :
  Completer.session w main_dict (Completer.init self None global_namespace') text states
  = Completer.session w main_dict
      (Completer.init self (Some main_dict) global_namespace') text states.
Proof.
  assert (H : forall a b : completer Obj,
             use_main_ns a = true -> use_main_ns b = false ->
             namespace b = main_dict -> global_namespace a = global_namespace b ->
             matches a = matches b ->
             Completer.session w main_dict a text states
             = Completer.session w main_dict b text states).
  { induction states as [|s states IH]; intros a b Ha Hb Hn Hg Hm; simpl; [reflexivity|].
    destruct (base_complete_value main_dict a text s) as (Va & Ma & Na & Ga & Ua).
    destruct (base_complete_value main_dict b text s) as (Vb & Mb & Nb & Gb & Ub).
    assert (Hc : computed_matches w (rebound main_dict a) text
                 = computed_matches w (rebound main_dict b) text).
    { apply computed_matches_same; unfold rebound; rewrite Ha, Hb; simpl; congruence. }
    destruct (Completer.complete w main_dict a text s) as [a' ra].
    destruct (Completer.complete w main_dict b text s) as [b' rb].
    simpl in *. f_equal.
    - rewrite Va, Vb, Hc, Hm. reflexivity.
    - apply IH.
      + congruence.
      + congruence.
      + rewrite Nb. unfold rebound. rewrite Hb. exact Hn.
      + congruence.
      + rewrite Ma, Mb, Hc, Hm. reflexivity. }
  apply H; reflexivity.
Qed.

End BaseClass.

(** ** The two modes of the pipeline *)

Section Modes.
Context {Obj : Type} (w : World Obj).
Import PyStr PrefixFacts.

Lemma merge_loop_concatenates_aux (self : completer Obj) (text : string) ms acc :
  Forall (fun m => exists l, IPCompleter.run_matcher w self m text = Ok l) ms ->
  fst (fst (IPCompleter.merge_loop w self ms text acc))
  = acc ++ flat_map (output_of w self text) ms
  /\ snd (fst (IPCompleter.merge_loop w self ms text acc)) = map CallMatcher ms.
Proof.
  intros H. revert acc. induction H as [|m ms [l Hl] _ IH]; intros acc; simpl.
  - rewrite app_nil_r. auto.
  - unfold output_of at 1. rewrite Hl. specialize (IH (acc ++ l)).
    destruct (IPCompleter.merge_loop w self ms text (acc ++ l)) as [[f c] r].
    simpl in *. destruct IH as [-> ->]. rewrite <- app_assoc. auto.
Qed.

(** X23: in merge mode, when no matcher raises, every matcher is called, in
    the order of the list, and the matches are the outputs of all of them
    one after the other; when a matcher raises, the matchers behind it are
    not called and the exception leaves the loop with what the matchers
    before it found. *)
Theorem merge_loop_concatenates (self : completer Obj) (text : string) :
  (forall ms acc,
      Forall (fun m => exists l, IPCompleter.run_matcher w self m text = Ok l) ms ->
      IPCompleter.merge_loop w self ms text acc
      = (acc ++ flat_map (output_of w self text) ms, map CallMatcher ms, Ok tt))
  /\ (forall pre m rest acc e,
         Forall (fun m => exists l, IPCompleter.run_matcher w self m text = Ok l) pre ->
         IPCompleter.run_matcher w self m text = Raise e ->
         IPCompleter.merge_loop w self (pre ++ m :: rest) text acc
         = (acc ++ flat_map (output_of w self text) pre,
            map CallMatcher (pre ++ [m]), Raise e)).
Proof.
  split.
  - intros ms acc H. revert acc. induction H as [|m ms [l Hl] _ IH]; intros acc; simpl.
    + rewrite app_nil_r. reflexivity.
    + unfold output_of at 1. rewrite Hl, IH, <- app_assoc. reflexivity.
  - intros pre m rest acc e H He. revert acc.
    induction H as [|k pre [l Hl] _ IH]; intros acc; simpl.
    + rewrite He, app_nil_r. reflexivity.
    + unfold output_of at 1. rewrite Hl, IH, <- app_assoc. reflexivity.
Qed.

Lemma first_loop_skips (self : completer Obj) (text : string) pre ms cur :
  Forall (fun k => IPCompleter.run_matcher w self k text = Ok []) pre ->
  IPCompleter.first_loop w self (pre ++ ms) text cur
  = (let '(found, calls, res) :=
       IPCompleter.first_loop w self ms text (match pre with [] => cur | _ => [] end) in
     (found, map CallMatcher pre ++ calls, res)).
Proof.
  intros H. revert cur. induction H as [|k pre Hk Hpre IH]; intros cur; simpl.
  - destruct (IPCompleter.first_loop w self ms text cur) as [[f c] r]. reflexivity.
  - rewrite Hk, IH.
    assert (Hcur : IPCompleter.first_loop w self ms text
                     (match pre with [] => [] | _ :: _ => [] end)
                   = IPCompleter.first_loop w self ms text [])
      by (destruct pre; reflexivity).
    rewrite Hcur.
    destruct (IPCompleter.first_loop w self ms text []) as [[f c] r]. reflexivity.
Qed.

(** X24: in first-match mode the first matcher with an output that is not
    empty decides: the matchers before it, which found nothing, and that
    matcher are called, in order, the matchers behind it are not, and its
    output is the match list. *)
Theorem first_loop_stops_at_first_output
  (self : completer Obj) (text : string) pre m rest cur x l :
  Forall (fun k => IPCompleter.run_matcher w self k text = Ok []) pre ->
  IPCompleter.run_matcher w self m text = Ok (x :: l) ->
  IPCompleter.first_loop w self (pre ++ m :: rest) text cur
  = (x :: l, map CallMatcher (pre ++ [m]), Ok tt).
Proof.
  intros Hpre Hm. rewrite (first_loop_skips self text pre (m :: rest) cur Hpre).
  simpl. rewrite Hm, map_app. reflexivity.
Qed.

Lemma first_loop_found_in_outputs (self : completer Obj) (text : string) ms :
  Forall (fun m => exists l, IPCompleter.run_matcher w self m text = Ok l) ms ->
  incl (fst (fst (IPCompleter.first_loop w self ms text [])))
       (flat_map (output_of w self text) ms)
  /\ (fst (fst (IPCompleter.first_loop w self ms text [])) = []
      <-> flat_map (output_of w self text) ms = []).
Proof.
  induction 1 as [|m ms [l Hl] _ [IHi IHe]]; simpl.
  - split; [apply incl_refl | tauto].
  - unfold output_of at 1 3. rewrite Hl. destruct l as [|x l].
    + destruct (IPCompleter.first_loop w self ms text []) as [[f c] r]. simpl in *.
      tauto.
    + cbn [fst]. split.
      * intros y Hy. apply (in_or_app (x :: l)). left. exact Hy.
      * split; discriminate.
Qed.

(** X25: the two modes agree on whether anything matches: when no matcher
    raises, what first-match mode finds is part of what merge mode finds,
    and the one is empty exactly when the other is. *)
Theorem first_match_within_merge (first merge : completer Obj) (text : string) :
  merge_completions first = false -> merge_completions merge = true ->
  (forall m, IPCompleter.run_matcher w first m text = IPCompleter.run_matcher w merge m text) ->
  (forall m, exists l, IPCompleter.run_matcher w merge m text = Ok l) ->
  incl (fst (fst (IPCompleter.pipeline w first text)))
       (fst (fst (IPCompleter.pipeline w merge text)))
  /\ (fst (fst (IPCompleter.pipeline w first text)) = []
      <-> fst (fst (IPCompleter.pipeline w merge text)) = []).
Proof.
  intros Hf Hm Hsame Hok. unfold IPCompleter.pipeline. rewrite Hf, Hm.
  assert (Hall : forall s : completer Obj,
             (forall m, exists l, IPCompleter.run_matcher w s m text = Ok l) ->
             Forall (fun m => exists l, IPCompleter.run_matcher w s m text = Ok l)
                    IPCompleter.matchers)
    by (intros s Hs; apply Forall_forall; intros m _; apply Hs).
  destruct (merge_loop_concatenates_aux merge text IPCompleter.matchers [] (Hall _ Hok))
    as [-> _].
  assert (Hokf : forall m, exists l, IPCompleter.run_matcher w first m text = Ok l)
    by (intros m; rewrite Hsame; apply Hok).
  destruct (first_loop_found_in_outputs first text IPCompleter.matchers (Hall _ Hokf))
    as [Hi He].
  assert (Hout : flat_map (output_of w first text) IPCompleter.matchers
                 = flat_map (output_of w merge text) IPCompleter.matchers).
  { apply flat_map_ext. intros m. unfold output_of. rewrite Hsame. reflexivity. }
  rewrite Hout in Hi, He. exact (conj Hi He).
Qed.

(** X26: as [__init__] leaves the object, [get_line_buffer] exists only
    under [use_readline]: without readline [python_func_kw_matches] raises
    [AttributeError] on every text without a dot, and so does [complete] in
    merge mode whenever no custom completer takes the request and
    [python_matches] returns. *)
Theorem complete_without_readline_raises
  (self : completer Obj) text line_buffer cursor_pos self0 tok :
  IPCompleter.prepare w self text line_buffer cursor_pos = Ok (self0, tok) ->
  use_readline self = false ->
  contains tok "."%char = false ->
  IPCompleter.python_func_kw_matches w self0 tok = Raise AttributeError
  /\ (merge_completions self = true ->
      snd (IPCompleter.dispatch_custom_completer self0 tok) = Ok None ->
      snd (IPCompleter.complete w self text line_buffer cursor_pos) = Raise AttributeError).
Proof.
  intros Hp Hrl Hdot.
  assert (Hself : use_readline self0 = use_readline self
                  /\ merge_completions self0 = merge_completions self).
  { unfold IPCompleter.prepare in Hp.
    destruct (IPCompleter.resolve_request w self text line_buffer cursor_pos)
      as [[[t lb] cp]|e]; [|discriminate].
    injection Hp as <- _. split; reflexivity. }
  destruct Hself as [Hrl0 Hmc0].
  assert (Hkw : IPCompleter.python_func_kw_matches w self0 tok = Raise AttributeError).
  { unfold IPCompleter.python_func_kw_matches, IPCompleter.get_line_buffer.
    rewrite Hdot, Hrl0, Hrl. reflexivity. }
  split; [exact Hkw|]. intros Hmerge Hnone.
  unfold IPCompleter.complete. rewrite Hp. unfold IPCompleter.aggregate.
  destruct (IPCompleter.dispatch_custom_completer self0 tok) as [calls r].
  simpl in Hnone. subst r.
  unfold IPCompleter.pipeline. rewrite Hmc0, Hmerge.
  unfold IPCompleter.matchers. simpl IPCompleter.merge_loop.
  unfold IPCompleter.python_matches. rewrite Hdot, Hkw. reflexivity.
Qed.

End Modes.

(** ** [_clean_glob_win32] and the exceptions of [python_matches] *)

Section Remaining.
Context {Obj : Type} (w : World Obj).
Import PyStr PrefixFacts.

Lemma replace_char_removes (s : string) (a b : ascii) :
  a <> b -> contains (replace_char s a b) a = false.
Proof.
  intros Hab. unfold contains, mem, replace_char. rewrite chars_str.
  induction (chars s) as [|d l IH]; [reflexivity|].
  cbn [map existsb]. rewrite IH, orb_false_r.
  destruct (Ascii.eqb a d) eqn:E.
  - apply Ascii.eqb_neq. exact Hab.
  - exact E.
Qed.

Lemma replace_char_get (s : string) (i : nat) :
  String.get i (replace_char s "\"%char "/"%char) = option_map slashed (String.get i s).
Proof.
  unfold replace_char. revert i. induction s as [|d s IH]; intros i; [reflexivity|].
  change (chars (String d s)) with (d :: chars s). cbn [map].
  change (str ((if Ascii.eqb "\" d then "/"%char else d)
               :: map (fun d0 => if Ascii.eqb "\" d0 then "/"%char else d0) (chars s)))
    with (String (if Ascii.eqb "\" d then "/"%char else d)
                 (str (map (fun d0 => if Ascii.eqb "\" d0 then "/"%char else d0)
                           (chars s)))).
  destruct i as [|i]; cbn [String.get option_map].
  - unfold slashed. rewrite (Ascii.eqb_sym d "\"). reflexivity.
  - apply IH.
Qed.

(** X27: on win32 the results are the names [glob] found, in its order,
    each with every backslash turned into a forward slash and every other
    character kept in its place; no result holds a backslash. *)
Theorem clean_glob_slashes (text : string) :
  win32 w = true ->
  Forall2 (fun found cleaned =>
             forall i, String.get i cleaned = option_map slashed (String.get i found))
          (glob w (text ++ "*")) (IPCompleter.clean_glob w text)
  /\ forall f, In f (IPCompleter.clean_glob w text) -> contains f "\"%char = false.
Proof.
  unfold IPCompleter.clean_glob. intros ->. split.
  - induction (glob w (text ++ "*")) as [|g l IH]; cbn [map]; constructor;
      [apply replace_char_get | exact IH].
  - intros f Hf. apply in_map_iff in Hf. destruct Hf as (g & <- & _).
    apply replace_char_removes. discriminate.
Qed.


End Remaining.

(** ** The further properties on the example runtime *)

Lemma alias_matches_gate_witness :
  IPCompleter.alias_matches (Demo.world Demo.cwd "sudo l")
    (Demo.ip [] [] true "sudo l" "sudo l") "l" = ["ls"; "ll"].
Proof.
  destruct (alias_matches_gate (Demo.world Demo.cwd "sudo l")
              (Demo.ip [] [] true "sudo l" "sudo l") "l") as [_ Hsudo].
  exact (Hsudo " l" eq_refl).
Defined.

Lemma magic_matches_ignores_escapes_witness :
  IPCompleter.magic_matches (Demo.world Demo.cwd "") (Demo.ip [] [] true "" "") "%%ti"
  = IPCompleter.magic_matches (Demo.world Demo.cwd "") (Demo.ip [] [] true "" "") "ti".
Proof.
  apply (magic_matches_ignores_escapes (Demo.world Demo.cwd "")
           (Demo.ip [] [] true "" "") "%%" "ti").
  reflexivity.
Defined.

Lemma python_matches_omit_nested_witness :
  exists l1 l0,
    IPCompleter.python_matches (Demo.world Demo.cwd "")
      (set_omit__names
         (Demo.ip [("obj", Demo.PyInstance ["_a"; "__b__"; "c"])] [] true "" "") 1)
      "obj." = Ok l1
    /\ IPCompleter.python_matches (Demo.world Demo.cwd "")
         (Demo.ip [("obj", Demo.PyInstance ["_a"; "__b__"; "c"])] [] true "" "")
         "obj." = Ok l0
    /\ incl ["obj.c"] l1 /\ incl l1 l0.
Proof.
  apply (python_matches_omit_nested (Demo.world Demo.cwd "")
           (Demo.ip [("obj", Demo.PyInstance ["_a"; "__b__"; "c"])] [] true "" "")
           (set_omit__names
              (Demo.ip [("obj", Demo.PyInstance ["_a"; "__b__"; "c"])] [] true "" "") 1)
           (set_omit__names
              (Demo.ip [("obj", Demo.PyInstance ["_a"; "__b__"; "c"])] [] true "" "") 2)
           "obj." ["obj.c"]); try reflexivity.
  simpl. lia.
Defined.

Lemma single_dir_expand_nonempty_witness :
  single_dir_expand (Demo.world Demo.cwd "") Demo.listdir 2 ["sub/"]
  = Ok ["sub/x.py"; "sub/y.py"]
  /\ ["sub/x.py"; "sub/y.py"] <> [].
Proof.
  split; [reflexivity|].
  apply (single_dir_expand_nonempty (Demo.world Demo.cwd "") Demo.listdir 2 ["sub/"]).
  - discriminate.
  - reflexivity.
Defined.

Lemma single_dir_expand_one_level_witness :
  single_dir_expand (Demo.world Demo.cwd "") Demo.listdir 2 ["sub/"]
  = Ok ["sub/x.py"; "sub/y.py"].
Proof.
  apply (single_dir_expand_one_level (Demo.world Demo.cwd "") Demo.listdir 0
           "sub/" "x.py" ["y.py"]).
  - reflexivity.
  - discriminate.
  - reflexivity.
  - discriminate.
Defined.

Lemma prepare_invariants_witness :
  matches (Demo.ip [] [] true "print(fo + 1" "print(fo") = []
  /\ PyStr.startswith "print(fo + 1" "print(fo" = true.
Proof.
  destruct (prepare_invariants (Demo.world Demo.cwd "")
              (Demo.ip [] [] true "" "") None (Some "print(fo + 1") (Some 8%Z)
              (Demo.ip [] [] true "print(fo + 1" "print(fo") "fo" eq_refl)
    as (Hm & Hp & _).
  split; [exact Hm | exact Hp].
Defined.

Lemma dispatch_first_answer_decides_witness :
  IPCompleter.dispatch_custom_completer
    (Demo.ip []
       [(Exact "foo", Demo.deferring 1); (Exact "foo", Demo.answering 2 ["Xa"; "y"]);
        (Exact "foo", Demo.answering 3 ["xb"])]
       true "foo x" "foo x") "x"
  = ([CallCustom 1; CallCustom 2], Ok (Some ["Xa"])).
Proof.
  destruct (dispatch_first_answer_decides
              (Demo.ip []
                 [(Exact "foo", Demo.deferring 1);
                  (Exact "foo", Demo.answering 2 ["Xa"; "y"]);
                  (Exact "foo", Demo.answering 3 ["xb"])]
                 true "foo x" "foo x")
              "x" "foo" [Demo.deferring 1] (Demo.answering 2 ["Xa"; "y"])
              [Demo.answering 3 ["xb"]] eq_refl eq_refl)
    as [Hok _].
  - constructor; [reflexivity | constructor].
  - exact (Hok ["Xa"; "y"] eq_refl).
Defined.

Lemma dispatch_case_sensitive_first_witness :
  PyStr.startswith "xa" "x" = true.
Proof.
  apply (dispatch_case_sensitive_first
           (Demo.ip [] [(Exact "foo", Demo.answering 1 ["Xb"; "xa"])] true "foo x" "foo x")
           "x" ["xa"]).
  - reflexivity.
  - exists "xa". split; [left; reflexivity | reflexivity].
  - left; reflexivity.
Defined.


Lemma file_matches_restores_bang_witness :
  PyStr.startswith "!sub" "!" = true.
Proof.
  apply (file_matches_restores_bang (Demo.world Demo.cwd "!s")
           (Demo.ip [] [] true "!s" "!s") "!s" ["!s"] "!sub").
  - reflexivity.
  - reflexivity.
  - left; reflexivity.
Defined.

Lemma python_func_kw_matches_needs_paren_witness :
  IPCompleter.python_func_kw_matches (Demo.world Demo.cwd "foo ba")
    (Demo.ip [("foo", Demo.foo)] [] true "foo ba" "foo ba") "ba" = Ok [].
Proof.
  apply (python_func_kw_matches_needs_paren (Demo.world Demo.cwd "foo ba")
           (Demo.ip [("foo", Demo.foo)] [] true "foo ba" "foo ba") "ba" "foo ba");
    reflexivity.
Defined.

Lemma default_arguments_are_trailing_witness :
  exists f args defaults pre,
    inspected_callable (Demo.world Demo.cwd "") Demo.foo = Some f
    /\ getargspec (Demo.world Demo.cwd "") f = Ok (args, defaults)
    /\ args = pre ++ ["baz"; "qux"]
    /\ List.length ["baz"; "qux"] = Nat.min defaults (List.length args).
Proof.
  destruct (default_arguments_are_trailing (Demo.world Demo.cwd "") Demo.foo) as [_ H].
  apply (H ["baz"; "qux"] eq_refl). discriminate.
Defined.

Lemma base_complete_serves_matches_witness :
  Completer.session (Demo.world Demo.cwd "") [("food", Demo.foo)]
    (Completer.init (Demo.ip [] [] true "" "") None None) "fo" [0; 1; 2]%Z
  = [Ok (Some "for"); Ok (Some "food"); Ok None].
Proof.
  apply (base_complete_serves_matches (Demo.world Demo.cwd "") [("food", Demo.foo)]
           (Completer.init (Demo.ip [] [] true "" "") None None) "fo" ["for"; "food"]).
  reflexivity.
Defined.

Lemma merge_loop_concatenates_witness :
  IPCompleter.merge_loop (Demo.world Demo.cwd "l") (Demo.ip [] [] true "l" "l")
    IPCompleter.matchers "l" []
  = (["lambda"; "len"; "ls"; "ll"], map CallMatcher IPCompleter.matchers, Ok tt).
Proof.
  destruct (merge_loop_concatenates (Demo.world Demo.cwd "l")
              (Demo.ip [] [] true "l" "l") "l") as [Hall _].
  apply (Hall IPCompleter.matchers []).
  repeat constructor; eexists; reflexivity.
Defined.

Lemma first_loop_stops_at_first_output_witness :
  IPCompleter.first_loop (Demo.world Demo.cwd "s") (Demo.ip [] [] false "s" "s")
    IPCompleter.matchers "s" []
  = (["sub/"], [CallMatcher PythonMatches; CallMatcher FileMatches], Ok tt).
Proof.
  apply (first_loop_stops_at_first_output (Demo.world Demo.cwd "s")
           (Demo.ip [] [] false "s" "s") "s" [PythonMatches] FileMatches
           [MagicMatches; AliasMatches; PythonFuncKwMatches] [] "sub/" []).
  - constructor; [reflexivity | constructor].
  - reflexivity.
Defined.

Lemma first_match_within_merge_witness :
  incl (fst (fst (IPCompleter.pipeline (Demo.world Demo.cwd "l")
                    (Demo.ip [] [] false "l" "l") "l")))
       (fst (fst (IPCompleter.pipeline (Demo.world Demo.cwd "l")
                    (Demo.ip [] [] true "l" "l") "l"))).
Proof.
  apply (first_match_within_merge (Demo.world Demo.cwd "l")
           (Demo.ip [] [] false "l" "l") (Demo.ip [] [] true "l" "l") "l").
  - reflexivity.
  - reflexivity.
  - intros m. destruct m; reflexivity.
  - intros m. destruct m; eexists; reflexivity.
Defined.

Lemma complete_without_readline_raises_witness :
  snd (IPCompleter.complete (Demo.world Demo.cwd "")
         (without_readline (Demo.ip [] [] true "" "")) (Some "fo") None None)
  = Raise AttributeError.
Proof.
  destruct (complete_without_readline_raises (Demo.world Demo.cwd "")
              (without_readline (Demo.ip [] [] true "" "")) (Some "fo") None None
              (without_readline (Demo.ip [] [] true "fo" "fo")) "fo"
              eq_refl eq_refl eq_refl) as [_ H].
  exact (H eq_refl eq_refl).
Defined.

Lemma clean_glob_slashes_witness :
  IPCompleter.clean_glob Demo.win32_world "sub\" = ["sub/x.py"; "sub/y.txt"]
  /\ Forall2 (fun found cleaned =>
                forall i, String.get i cleaned = option_map slashed (String.get i found))
             ["sub\x.py"; "sub\y.txt"] (IPCompleter.clean_glob Demo.win32_world "sub\")
  /\ forall f, In f (IPCompleter.clean_glob Demo.win32_world "sub\") ->
               PyStr.contains f "\"%char = false.
Proof.
  split; [reflexivity|].
  exact (clean_glob_slashes Demo.win32_world "sub\" eq_refl).
Defined.

Lemma split_line_word_witness :
  CompletionSplitter.delimiter (Demo.world Demo.cwd "") CompletionSplitter._delims "("%char
  = true
  /\ CompletionSplitter.split_line (Demo.world Demo.cwd "") CompletionSplitter._delims
       "foo(bar, ba" None = "ba"
  /\ CompletionSplitter.split_line (Demo.world Demo.cwd "") "d" "ad1b" None = "b".
Proof.
  destruct (split_line_word (Demo.world Demo.cwd "") CompletionSplitter._delims
              "foo(bar, ba" None) as (_ & _ & Hlit).
  split; [rewrite (Hlit eq_refl); reflexivity | split; reflexivity].
Defined.

